(** * Weaver Admin dashboard: a shallow embedding of [src/App.tsx]

    The dashboard is one React component.  Its code is embedded here as

    - the JavaScript string operations the component calls
      ([includes], [split], [toUpperCase], the [||] fallback),
    - the data model of the TypeScript interfaces ([Session], [Subagent],
      [SystemStatus]) and the five [useState] cells ([ViewState]),
    - the three fetch handlers, written in a small state-and-exception
      monad that follows their [try]/[catch]/[finally] blocks,
    - the [useEffect] poller over a virtual clock with one interval timer,
    - the renderer, a function from [ViewState] to a display tree that can
      fault the way the JSX expressions can.

    Strings are [String.string]; host names and model identifiers are taken
    to be ASCII, and [toUpperCase] is the ASCII case mapping.  Numbers of the
    payload (counts, epoch milliseconds) are [Z].  A body may parse to JSON
    [null].  A non-null body of [/admin/status] is taken at the declared
    type [SystemStatus]; a non-null body of [/admin/logs] or
    [/admin/service] is seen through its property [output], which may be
    missing or hold any JSON value. *)

From Stdlib Require Import String Ascii List Bool ZArith Lia Arith.
Import ListNotations.

Local Open Scope string_scope.
Local Open Scope list_scope.

(** ** JavaScript string operations *)

Module JS.

(** [a || b] on strings: the empty string is the only falsy string. *)
Definition or_else (a b : string) : string :=
  match a with
  | EmptyString => b
  | _ => a
  end.

(** [a || b] where [a] may be [undefined] (optional chaining, a missing
    property). *)
Definition opt_or_else (a : option string) (b : string) : string :=
  match a with
  | None => b
  | Some s => or_else s b
  end.

(** [n || 0] on a number that may be [undefined]: [0] is falsy and is
    replaced by [0]. *)
Definition num_or_zero (n : option nat) : nat :=
  match n with
  | None => 0
  | Some 0 => 0
  | Some m => m
  end.

(** A value as [JSON.parse] builds it.  Numbers are integers; an object is
    its list of fields. *)
#[local] Unset Elimination Schemes.
Inductive value : Type :=
| VNull
| VBool (b : bool)
| VNum (n : Z)
| VStr (s : string)
| VArr (items : list value)
| VObj (fields : list (string * value)).
#[local] Set Elimination Schemes.

(** Truthiness: [null], [false], [0] and the empty string are falsy, every
    array and object is truthy. *)
Definition truthy (v : value) : bool :=
  match v with
  | VNull => false
  | VBool b => b
  | VNum n => negb (n =? 0)%Z
  | VStr EmptyString => false
  | VStr (String _ _) => true
  | VArr _ => true
  | VObj _ => true
  end.

(** [a || b] on values. *)
Definition value_or (a b : value) : value :=
  if truthy a then a else b.

(** [a || b] where [a] may be [undefined]. *)
Definition opt_value_or (a : option value) (b : value) : value :=
  match a with
  | None => b
  | Some v => value_or v b
  end.

(** [s.startsWith(p)] *)
Fixpoint startsWith (p s : string) : bool :=
  match p, s with
  | EmptyString, _ => true
  | String _ _, EmptyString => false
  | String a p', String b s' => if Ascii.eqb a b then startsWith p' s' else false
  end.

(** [s.includes(needle)] *)
Fixpoint includes (needle s : string) : bool :=
  if startsWith needle s then true
  else match s with
       | EmptyString => false
       | String _ s' => includes needle s'
       end.

(** [s.split(sep)] for a separator of one character.  The result is never
    empty: a string without the separator is its own single segment. *)
Fixpoint split (sep : ascii) (s : string) : list string :=
  match s with
  | EmptyString => [EmptyString]
  | String c s' =>
      if Ascii.eqb c sep then EmptyString :: split sep s'
      else match split sep s' with
           | seg :: rest => String c seg :: rest
           | [] => [String c EmptyString]
           end
  end.

Definition upper_ascii (c : ascii) : ascii :=
  let n := nat_of_ascii c in
  if (97 <=? n)%nat && (n <=? 122)%nat then ascii_of_nat (n - 32) else c.

(** [s.toUpperCase()] on ASCII text. *)
Fixpoint toUpperCase (s : string) : string :=
  match s with
  | EmptyString => EmptyString
  | String c s' => String (upper_ascii c) (toUpperCase s')
  end.

(** The exceptions the component can meet. *)
Inductive exn : Type :=
| Error (message : string)
| TypeError (message : string)
| SyntaxError (message : string).

(** [err.message] *)
Definition message (e : exn) : string :=
  match e with
  | Error m | TypeError m | SyntaxError m => m
  end.

End JS.

Coercion JS.VStr : string >-> JS.value.

(** ** Data model *)

Record Session : Type := mkSession {
  key : string;
  message_count : Z;
  updated : Z;
  s_created : Z
}.

Record Subagent : Type := mkSubagent {
  id : string;
  task : string;
  label : string;
  t_status : string;
  created : Z
}.

Record SystemStatus : Type := mkSystemStatus {
  model : string;
  ready : bool;
  sessions : list Session;
  subagents : list Subagent;
  uptime : string;
  workspace : string
}.

(** The five [useState] cells of [App]. *)
Record ViewState : Type := mkViewState {
  status : option SystemStatus;
  logs : JS.value;
  service : JS.value;
  loading : bool;
  error : option string
}.

(** State at mount: the initial values given to [useState]. *)
Definition initialState : ViewState :=
  {| status := None; logs := ""; service := ""; loading := true; error := None |}.

Definition setStatus (d : option SystemStatus) (st : ViewState) : ViewState :=
  {| status := d; logs := logs st; service := service st;
     loading := loading st; error := error st |}.

Definition setLogs (s : JS.value) (st : ViewState) : ViewState :=
  {| status := status st; logs := s; service := service st;
     loading := loading st; error := error st |}.

Definition setService (s : JS.value) (st : ViewState) : ViewState :=
  {| status := status st; logs := logs st; service := s;
     loading := loading st; error := error st |}.

Definition setLoading (b : bool) (st : ViewState) : ViewState :=
  {| status := status st; logs := logs st; service := service st;
     loading := b; error := error st |}.

Definition setError (e : option string) (st : ViewState) : ViewState :=
  {| status := status st; logs := logs st; service := service st;
     loading := loading st; error := e |}.

(** ** Endpoint resolver *)

Definition marker : string := "operator.onl".
Definition stagingBase : string := "https://weaver.operator.onl".
Definition productionBase : string := "https://weaver.onl".

(** [getApiBase], with [window.location.hostname] as its argument. *)
Definition getApiBase (hostname : string) : string :=
  let isDev := JS.includes marker hostname in
  if isDev then stagingBase else productionBase.

(** ** What the network hands back *)

(** The outcome of [res.json()]: a [SyntaxError], a non-null value, or
    [null] (the body is the JSON text [null]). *)
Inductive JsonOutcome (A : Type) : Type :=
| ParseFailure (msg : string)
| Parsed (data : A)
| ParsedNull.
Arguments ParseFailure {A} msg.
Arguments Parsed {A} data.
Arguments ParsedNull {A}.

(** A response object: its [ok] flag and what [json()] will give. *)
Record Response (A : Type) : Type := mkResponse {
  ok : bool;
  json : JsonOutcome A
}.
Arguments mkResponse {A} ok json.
Arguments ok {A} r.
Arguments json {A} r.

(** The outcome of [fetch(url)]: the promise rejects (network failure) or
    resolves to a response, whatever its HTTP status. *)
Inductive FetchOutcome (A : Type) : Type :=
| Rejected (msg : string)
| Resolved (res : Response A).
Arguments Rejected {A} msg.
Arguments Resolved {A} res.

(** A non-null body of [/admin/logs] or [/admin/service], seen through the
    one property the handlers read: [data.output] is [undefined] ([None])
    when the body is an object without that field, or is not an object at
    all (a number, a string, an array), and otherwise the value of the
    field. *)
Record TextBody : Type := mkTextBody {
  output : option JS.value
}.

(** ** The handler monad: view state plus exceptions

    A computation runs on the view state and either returns a value or
    throws; state written before a throw stays written. *)

Module Handler.

Definition M (A : Type) : Type := ViewState -> (JS.exn + A) * ViewState.

Definition ret {A} (a : A) : M A := fun st => (inr a, st).

Definition bind {A B} (m : M A) (k : A -> M B) : M B :=
  fun st =>
    match m st with
    | (inl e, st') => (inl e, st')
    | (inr a, st') => k a st'
    end.

Definition throw {A} (e : JS.exn) : M A := fun st => (inl e, st).

(** [try { body } catch (err) { handler(err) }] *)
Definition try_catch {A} (body : M A) (handler : JS.exn -> M A) : M A :=
  fun st =>
    match body st with
    | (inl e, st') => handler e st'
    | r => r
    end.

(** [try { body } finally { final }] *)
Definition try_finally {A} (body : M A) (final : M unit) : M A :=
  fun st =>
    match body st with
    | (r, st') =>
        match final st' with
        | (inl e, st'') => (inl e, st'')
        | (inr _, st'') => (r, st'')
        end
    end.

(** A state setter as a computation. *)
Definition set (f : ViewState -> ViewState) : M unit :=
  fun st => (inr tt, f st).

(** [await fetch(url)] once the outcome is known. *)
Definition await_fetch {A} (o : FetchOutcome A) : M (Response A) :=
  match o with
  | Rejected msg => throw (JS.TypeError msg)
  | Resolved res => ret res
  end.

(** [await res.json()]; [None] is [null]. *)
Definition await_json {A} (res : Response A) : M (option A) :=
  match json res with
  | ParseFailure msg => throw (JS.SyntaxError msg)
  | Parsed data => ret (Some data)
  | ParsedNull => ret None
  end.

(** [data.output]: reading a property of [null] throws. *)
Definition get_output (data : option TextBody) : M (option JS.value) :=
  match data with
  | None => throw (JS.TypeError "Cannot read properties of null (reading 'output')")
  | Some d => ret (output d)
  end.

(** The state an [async] handler leaves behind.  The handlers below catch
    everything they throw, so their promise always fulfils. *)
Definition exec {A} (m : M A) (st : ViewState) : ViewState := snd (m st).

End Handler.

Declare Scope handler_scope.
Delimit Scope handler_scope with handler.
Notation "x <- m ;; k" := (Handler.bind m (fun x => k))
  (at level 61, m at next level, right associativity) : handler_scope.
Notation "m ;; k" := (Handler.bind m (fun _ => k))
  (at level 61, right associativity) : handler_scope.

(** ** The three fetch handlers *)

Section Fetchers.
Import Handler.
Local Open Scope handler_scope.

Definition fetchStatusM (o : FetchOutcome SystemStatus) : M unit :=
  try_finally
    (try_catch
       (res <- await_fetch o ;;
        (if negb (ok res) then throw (JS.Error "Failed to fetch status") else ret tt) ;;
        data <- await_json res ;;
        set (setStatus data) ;;
        set (setError None))
       (fun err => set (setError (Some (JS.message err)))))
    (set (setLoading false)).

Definition fetchLogsM (o : FetchOutcome TextBody) : M unit :=
  try_catch
    (res <- await_fetch o ;;
     data <- await_json res ;;
     out <- get_output data ;;
     set (setLogs (JS.opt_value_or out "")))
    (fun _ => ret tt).

Definition fetchServiceM (o : FetchOutcome TextBody) : M unit :=
  try_catch
    (res <- await_fetch o ;;
     data <- await_json res ;;
     out <- get_output data ;;
     set (setService (JS.opt_value_or out "")))
    (fun _ => ret tt).

End Fetchers.

Definition fetchStatus (st : ViewState) (o : FetchOutcome SystemStatus) : ViewState :=
  Handler.exec (fetchStatusM o) st.

Definition fetchLogs (st : ViewState) (o : FetchOutcome TextBody) : ViewState :=
  Handler.exec (fetchLogsM o) st.

Definition fetchService (st : ViewState) (o : FetchOutcome TextBody) : ViewState :=
  Handler.exec (fetchServiceM o) st.

(** ** The poller: [useEffect] over a virtual clock

    The effect runs once at mount: it calls the three fetchers, arms one
    interval timer of 5000 ms whose callback calls them again, and returns
    the cleanup that clears the timer.  Time is in milliseconds. *)

Inductive Endpoint : Type := StatusEndpoint | LogsEndpoint | ServiceEndpoint.

Definition Endpoint_eqb (a b : Endpoint) : bool :=
  match a, b with
  | StatusEndpoint, StatusEndpoint
  | LogsEndpoint, LogsEndpoint
  | ServiceEndpoint, ServiceEndpoint => true
  | _, _ => false
  end.

Definition path (e : Endpoint) : string :=
  match e with
  | StatusEndpoint => "/admin/status"
  | LogsEndpoint => "/admin/logs"
  | ServiceEndpoint => "/admin/service"
  end.

(** One call of [fetch]: when it was issued, for which resource, to which
    URL. *)
Record Request : Type := mkRequest {
  req_time : Z;
  req_endpoint : Endpoint;
  req_url : string
}.

(** The browser side of the poller: the clock, the interval timer (the time
    its callback next falls due, or [None] when no timer is armed) and the
    requests issued so far, oldest first. *)
Record Poller : Type := mkPoller {
  now : Z;
  interval : option Z;
  issued : list Request
}.

Definition period : Z := 5000%Z.

Definition idle : Poller := {| now := 0%Z; interval := None; issued := [] |}.

Section Polling.
Variable hostname : string.

(** [fetch(`${getApiBase()}/admin/...`)] at clock time [t]. *)
Definition issue (t : Z) (e : Endpoint) (p : Poller) : Poller :=
  {| now := now p; interval := interval p;
     issued := issued p ++ [mkRequest t e (getApiBase hostname ++ path e)%string] |}.

(** [fetchStatus(); fetchLogs(); fetchService();] *)
Definition round (t : Z) (p : Poller) : Poller :=
  issue t ServiceEndpoint (issue t LogsEndpoint (issue t StatusEndpoint p)).

(** [setInterval(callback, 5000)] *)
Definition setInterval (p : Poller) : Poller :=
  {| now := now p; interval := Some (now p + period)%Z; issued := issued p |}.

(** [clearInterval(interval)] *)
Definition clearInterval (p : Poller) : Poller :=
  {| now := now p; interval := None; issued := issued p |}.

(** The effect body, run at mount. *)
Definition mount (p : Poller) : Poller := setInterval (round (now p) p).

(** The effect cleanup, run at teardown. *)
Definition unmount (p : Poller) : Poller := clearInterval p.

(** The timer callback running at its due time [due]; the timer is then
    due again one period later. *)
Definition tick (due : Z) (p : Poller) : Poller :=
  let p' := round due p in
  {| now := now p'; interval := Some (due + period)%Z; issued := issued p' |}.

(** The event loop up to clock time [target]: while the timer is due, run
    its callback. *)
Fixpoint runTimers (fuel : nat) (target : Z) (p : Poller) : Poller :=
  match fuel with
  | O => p
  | S fuel' =>
      match interval p with
      | Some due =>
          if (due <=? target)%Z then runTimers fuel' target (tick due p) else p
      | None => p
      end
  end.

(** Let [ms] milliseconds pass.  The period is at least one millisecond, so
    [ms] steps are enough for every callback that falls due. *)
Definition advance (ms : Z) (p : Poller) : Poller :=
  let target := (now p + ms)%Z in
  let p' := runTimers (Z.to_nat ms) target p in
  {| now := target; interval := interval p'; issued := issued p' |}.

End Polling.

(** The times at which a resource was requested. *)
Definition requestTimes (e : Endpoint) (p : Poller) : list Z :=
  map req_time (filter (fun r => Endpoint_eqb (req_endpoint r) e) (issued p)).

(** ** The renderer *)

Inductive CardValue : Type :=
| NumValue (n : nat)
| TextValue (s : string).

(** Props of [StatCard] (icon and colour are styling and left out). *)
Record StatCardProps : Type := mkStatCardProps {
  p_label : string;
  p_value : CardValue;
  p_subValue : option string
}.

(** What a stat card displays. *)
Record StatCardView : Type := mkStatCardView {
  card_label : string;
  card_value : CardValue;
  card_sub : option string
}.

(** The [StatCard] component; [subValue && <span>] shows a sub-value only when
    it is a non-empty string. *)
Definition StatCard (p : StatCardProps) : StatCardView :=
  {| card_label := p_label p;
     card_value := p_value p;
     card_sub := match p_subValue p with
                 | Some (String c s) => Some (String c s)
                 | _ => None
                 end |}.

Record EmptyStateView : Type := mkEmptyStateView {
  empty_message : string
}.

(** The [EmptyState] component. *)
Definition EmptyState (message : string) : EmptyStateView :=
  {| empty_message := message |}.

(** One element of the session list: its React [key], the key text, the
    timestamp shown after "Updated" and the message count. *)
Record SessionRow : Type := mkSessionRow {
  row_key : string;
  row_title : string;
  row_updated : Z;
  row_msgs : Z
}.

(** One element of the subagent list. *)
Record SubagentRow : Type := mkSubagentRow {
  sub_key : string;
  sub_badge : string;
  sub_name : string;
  sub_created : Z;
  sub_task : string
}.

Inductive Indicator : Type := BgSuccess | BgError.

Record Dashboard : Type := mkDashboard {
  d_uptime : string;
  d_indicator : Indicator;
  d_banner : option string;
  d_sessionsCard : StatCardView;
  d_subagentsCard : StatCardView;
  d_modelCard : StatCardView;
  d_workspaceCard : StatCardView;
  d_sessionsTotal : nat;
  d_sessionRows : list SessionRow;
  d_sessionsEmpty : option EmptyStateView;
  d_subagentsTotal : nat;
  d_subagentRows : list SubagentRow;
  d_subagentsEmpty : option EmptyStateView;
  d_logs : JS.value;
  d_service : JS.value
}.

(** What [App] returns: the full-screen placeholder, which has no panels, or
    the dashboard. *)
Inductive View : Type :=
| Initializing
| DashboardView (d : Dashboard).

Section Renderer.
Variable st : ViewState.

(** [status?.uptime || '0s'] *)
Definition uptimeText : string :=
  JS.opt_or_else (option_map uptime (status st)) "0s".

(** [status?.ready ? 'bg-success' : 'bg-error'] *)
Definition indicator : Indicator :=
  match status st with
  | Some s => if ready s then BgSuccess else BgError
  | None => BgError
  end.

(** [error && <div>Connection lost: {error}</div>] *)
Definition banner : option string :=
  match error st with
  | Some (String c m) => Some ("Connection lost: " ++ String c m)%string
  | _ => None
  end.

(** [status?.sessions.length || 0] *)
Definition sessionsCount : nat :=
  JS.num_or_zero (option_map (fun s => length (sessions s)) (status st)).

(** [status?.subagents.length || 0] *)
Definition subagentsCount : nat :=
  JS.num_or_zero (option_map (fun s => length (subagents s)) (status st)).

(** [status?.model.split('-')[1].toUpperCase() || 'N/A'].  A null status
    cuts the whole chain short; an index past the last segment is
    [undefined], and the call of [toUpperCase] on it throws. *)
Definition coreModelValue : JS.exn + string :=
  match status st with
  | None => inr "N/A"
  | Some s =>
      match nth_error (JS.split "-" (model s)) 1 with
      | None =>
          inl (JS.TypeError
                 "Cannot read properties of undefined (reading 'toUpperCase')")
      | Some seg => inr (JS.or_else (JS.toUpperCase seg) "N/A")
      end
  end.

(** [status?.sessions.map((s) => <div key={s.key}>...)] *)
Definition sessionRows : list SessionRow :=
  match status st with
  | None => []
  | Some s =>
      map (fun x => {| row_key := key x; row_title := key x;
                       row_updated := updated x;
                       row_msgs := message_count x |})
          (sessions s)
  end.

(** [status?.sessions.length === 0 && <EmptyState ... />] *)
Definition sessionsEmpty : option EmptyStateView :=
  match status st with
  | None => None
  | Some s =>
      if (length (sessions s) =? 0)%nat
      then Some (EmptyState "No active sessions found") else None
  end.

(** [status?.subagents.map((t) => <div key={t.id}>...)] *)
Definition subagentRows : list SubagentRow :=
  match status st with
  | None => []
  | Some s =>
      map (fun t => {| sub_key := id t; sub_badge := t_status t;
                       sub_name := JS.or_else (label t) (id t);
                       sub_created := created t;
                       sub_task := task t |})
          (subagents s)
  end.

(** [status?.subagents.length === 0 && <EmptyState ... />] *)
Definition subagentsEmpty : option EmptyStateView :=
  match status st with
  | None => None
  | Some s =>
      if (length (subagents s) =? 0)%nat
      then Some (EmptyState "No background tasks running") else None
  end.

(** The tree returned at the end of [App], given the value of the Core
    Model card. *)
Definition dashboard (modelLabel : string) : Dashboard :=
  {| d_uptime := uptimeText;
     d_indicator := indicator;
     d_banner := banner;
     d_sessionsCard :=
       StatCard (mkStatCardProps "Active Sessions" (NumValue sessionsCount) None);
     d_subagentsCard :=
       StatCard (mkStatCardProps "Running Subagents" (NumValue subagentsCount) None);
     d_modelCard :=
       StatCard (mkStatCardProps "Core Model" (TextValue modelLabel)
                   (option_map model (status st)));
     d_workspaceCard :=
       StatCard (mkStatCardProps "Workspace" (TextValue "Isolated")
                   (option_map workspace (status st)));
     d_sessionsTotal := sessionsCount;
     d_sessionRows := sessionRows;
     d_sessionsEmpty := sessionsEmpty;
     d_subagentsTotal := subagentsCount;
     d_subagentRows := subagentRows;
     d_subagentsEmpty := subagentsEmpty;
     d_logs := JS.value_or (logs st) "No logs available";
     d_service := JS.value_or (service st) "Loading service status..." |}.

(** The body of [App] after the hooks: the early return of the placeholder
    when [loading && !status], then the dashboard, whose construction
    faults if a JSX expression does. *)
Definition render : JS.exn + View :=
  if loading st && (match status st with None => true | Some _ => false end)
  then inr Initializing
  else
    match coreModelValue with
    | inl e => inl e
    | inr modelLabel => inr (DashboardView (dashboard modelLabel))
    end.

End Renderer.

(** ** Runs of the component

    Between mount and teardown the view state changes only when one of the
    three fetches settles. *)

Inductive Settled : Type :=
| StatusSettled (o : FetchOutcome SystemStatus)
| LogsSettled (o : FetchOutcome TextBody)
| ServiceSettled (o : FetchOutcome TextBody).

Definition step (st : ViewState) (ev : Settled) : ViewState :=
  match ev with
  | StatusSettled o => fetchStatus st o
  | LogsSettled o => fetchLogs st o
  | ServiceSettled o => fetchService st o
  end.

(** The view state after the fetches of [evs] settled in that order. *)
Definition run (evs : list Settled) : ViewState := fold_left step evs initialState.

Definition isStatusSettled (ev : Settled) : bool :=
  match ev with StatusSettled _ => true | _ => false end.

(** A status fetch that went all the way: a response with [ok] whose body
    parsed. *)
Definition isStatusReceived (ev : Settled) : bool :=
  match ev with
  | StatusSettled (Resolved {| ok := true; json := Parsed _ |}) => true
  | _ => false
  end.

(** ** Vocabulary of the properties *)

(** [needle] occurs in [s]. *)
Definition Contains (needle s : string) : Prop :=
  exists pre post : string, s = (pre ++ needle ++ post)%string.

(** The text of [s] before its first [sep]; all of [s] when it has none. *)
Fixpoint upTo (sep : ascii) (s : string) : string :=
  match s with
  | EmptyString => EmptyString
  | String c s' => if Ascii.eqb c sep then EmptyString else String c (upTo sep s')
  end.

(** The entire text of [s] after its first [sep]; empty when it has none. *)
Fixpoint afterFirst (sep : ascii) (s : string) : string :=
  match s with
  | EmptyString => EmptyString
  | String c s' => if Ascii.eqb c sep then s' else afterFirst sep s'
  end.

(** The model string has a hyphen. *)
Definition hasHyphen (m : string) : bool := JS.includes "-" m.

(** The view state right after a status payload [d] was received. *)
Definition withStatus (d : SystemStatus) (st : ViewState) : ViewState :=
  fetchStatus st (Resolved (mkResponse true (Parsed d))).

(** How often a key occurs in a list of keys. *)
Definition occurrences (k : string) (ks : list string) : nat :=
  count_occ string_dec ks k.

(** The requests of one round issued at time [t]. *)
Definition roundRequests (hostname : string) (t : Z) : list Request :=
  [ mkRequest t StatusEndpoint (getApiBase hostname ++ "/admin/status")%string;
    mkRequest t LogsEndpoint (getApiBase hostname ++ "/admin/logs")%string;
    mkRequest t ServiceEndpoint (getApiBase hostname ++ "/admin/service")%string ].

(** [n] instants one period apart, starting at [t]. *)
Fixpoint timesFrom (t : Z) (n : nat) : list Z :=
  match n with
  | O => []
  | S n' => t :: timesFrom (t + period)%Z n'
  end.

(** How many callbacks of a timer due at [due] fall due up to [target]. *)
Definition dueTicks (due target : Z) : nat :=
  if (due <=? target)%Z then S (Z.to_nat ((target - due) / period)) else O.

(** ** Vocabulary of the further properties *)

Definition isLogsSettled (ev : Settled) : bool :=
  match ev with LogsSettled _ => true | _ => false end.

Definition isServiceSettled (ev : Settled) : bool :=
  match ev with ServiceSettled _ => true | _ => false end.

(** The message with which a status fetch fails, if it fails: the rejection
    of [fetch], the [Error] thrown on a response without [ok], or the
    [SyntaxError] of [json()]. *)
Definition statusFailure (o : FetchOutcome SystemStatus) : option string :=
  match o with
  | Rejected msg => Some msg
  | Resolved res =>
      if negb (ok res) then Some "Failed to fetch status"
      else match json res with
           | ParseFailure msg => Some msg
           | Parsed _ => None
           | ParsedNull => None
           end
  end.

(** A status fetch that went all the way with a body that parsed to
    [null]. *)
Definition isStatusNull (ev : Settled) : bool :=
  match ev with
  | StatusSettled (Resolved {| ok := true; json := ParsedNull |}) => true
  | _ => false
  end.

(** A lower-case ASCII letter. *)
Definition isLower (c : ascii) : bool :=
  let n := nat_of_ascii c in (97 <=? n)%nat && (n <=? 122)%nat.

(** Some character of [s] satisfies [P]. *)
Fixpoint anyChar (P : ascii -> bool) (s : string) : bool :=
  match s with
  | EmptyString => false
  | String c s' => P c || anyChar P s'
  end.

(** A dashboard with its banner replaced. *)
Definition setBanner (b : option string) (d : Dashboard) : Dashboard :=
  {| d_uptime := d_uptime d;
     d_indicator := d_indicator d;
     d_banner := b;
     d_sessionsCard := d_sessionsCard d;
     d_subagentsCard := d_subagentsCard d;
     d_modelCard := d_modelCard d;
     d_workspaceCard := d_workspaceCard d;
     d_sessionsTotal := d_sessionsTotal d;
     d_sessionRows := d_sessionRows d;
     d_sessionsEmpty := d_sessionsEmpty d;
     d_subagentsTotal := d_subagentsTotal d;
     d_subagentRows := d_subagentRows d;
     d_subagentsEmpty := d_subagentsEmpty d;
     d_logs := d_logs d;
     d_service := d_service d |}.

(** What the banner shows for an error message. *)
Definition bannerOf (msg : string) : option string :=
  match msg with
  | EmptyString => None
  | String c m => Some ("Connection lost: " ++ String c m)%string
  end.

(** The cells a status fetch writes. *)
Definition sameStatusCells (a b : ViewState) : Prop :=
  status a = status b /\ error a = error b /\ loading a = loading b.

(** The timer, if armed, is due strictly after the current clock time. *)
Definition timerAhead (p : Poller) : Prop :=
  match interval p with
  | Some due => (now p < due)%Z
  | None => True
  end.

(** ** Sample inputs *)

Definition session1 : Session :=
  {| key := "telegram:4411"; message_count := 12;
     updated := 1730000000000; s_created := 1729990000000 |}.

Definition session2 : Session :=
  {| key := "cli:default"; message_count := 3;
     updated := 1730000050000; s_created := 1729990500000 |}.

Definition subagent1 : Subagent :=
  {| id := "sub-01"; task := "index the workspace"; label := "";
     t_status := "running"; created := 1730000010000 |}.

(** A payload whose model string has no hyphen. *)
Definition hyphenless : SystemStatus :=
  {| model := "gpt4"; ready := true; sessions := [session1];
     subagents := [subagent1]; uptime := "3h12m"; workspace := "/srv/weaver" |}.

(** A payload whose model string has two hyphens. *)
Definition twoHyphens : SystemStatus :=
  {| model := "gpt-4-turbo"; ready := true; sessions := [session1; session2];
     subagents := [subagent1]; uptime := "3h12m"; workspace := "/srv/weaver" |}.

(** A view state holding text from earlier polls. *)
Definition seasoned : ViewState :=
  {| status := Some twoHyphens; logs := "boot ok"; service := "active (running)";
     loading := false; error := None |}.

(** An HTTP 500 answer whose JSON body parses and has no [output] field. *)
Definition serverErrorBody : FetchOutcome TextBody :=
  Resolved (mkResponse false (Parsed (mkTextBody None))).

(** A payload with no sessions and no subagents whose model string has no
    hyphen. *)
Definition quietHyphenless : SystemStatus :=
  {| model := "gpt4"; ready := true; sessions := [];
     subagents := []; uptime := "12s"; workspace := "/srv/weaver" |}.

(** * Properties *)

(** ** Strings *)

Section StringFacts.
Local Arguments Ascii.eqb : simpl never.

Lemma startsWith_spec (p s : string) :
  JS.startsWith p s = true <-> exists post, s = (p ++ post)%string.
Proof.
  revert s; induction p as [|a p IH]; intros s; simpl.
  - split; [intros _; exists s; reflexivity | reflexivity].
  - destruct s as [|b s].
    + split; [discriminate | intros [post H]; discriminate].
    + destruct (Ascii.eqb_spec a b) as [->|Hab].
      * rewrite IH. split; intros [post H]; exists post.
        -- now rewrite H.
        -- now inversion H.
      * split; [discriminate | intros [post H]; simpl in H; congruence].
Qed.

Lemma includes_spec (needle s : string) :
  JS.includes needle s = true <-> Contains needle s.
Proof.
  induction s as [|c s IH]; simpl.
  - destruct (JS.startsWith needle "") eqn:E.
    + split; [intros _ | reflexivity].
      apply startsWith_spec in E as [post E]. exists "", post. exact E.
    + split; [discriminate | intros [pre [post H]]].
      destruct pre; [| discriminate].
      assert (JS.startsWith needle "" = true) as E'
          by (apply startsWith_spec; exists post; exact H).
      congruence.
  - destruct (JS.startsWith needle (String c s)) eqn:E.
    + split; [intros _ | reflexivity].
      apply startsWith_spec in E as [post E]. exists "", post. exact E.
    + rewrite IH. split.
      * intros [pre [post H]]. exists (String c pre), post. simpl. now rewrite H.
      * intros [pre [post H]]. destruct pre as [|c' pre].
        -- assert (JS.startsWith needle (String c s) = true) as E'
               by (apply startsWith_spec; exists post; exact H).
           congruence.
        -- inversion H. exists pre, post. reflexivity.
Qed.

Lemma hasHyphen_cons (c : ascii) (s : string) :
  hasHyphen (String c s) = if Ascii.eqb c "-" then true else hasHyphen s.
Proof.
  unfold hasHyphen. simpl. rewrite (Ascii.eqb_sym "-" c).
  destruct (Ascii.eqb c "-"); reflexivity.
Qed.

Lemma hasHyphen_nil : hasHyphen "" = false.
Proof. reflexivity. Qed.

Lemma split_not_nil (sep : ascii) (s : string) : JS.split sep s <> [].
Proof.
  destruct s as [|c s]; simpl; [discriminate |].
  destruct (Ascii.eqb c sep); [discriminate |].
  destruct (JS.split sep s); discriminate.
Qed.

(** The first segment is the text before the first separator. *)
Lemma split_head (sep : ascii) (s : string) :
  hd_error (JS.split sep s) = Some (upTo sep s).
Proof.
  induction s as [|c s IH]; simpl; [reflexivity |].
  destruct (Ascii.eqb c sep); [reflexivity |].
  destruct (JS.split sep s) as [|seg rest]; simpl in *; congruence.
Qed.

(** The segments after the first are the segments of the text after the
    first separator; there are none when the separator does not occur. *)
Lemma split_tail (s : string) :
  tl (JS.split "-" s) = if hasHyphen s then JS.split "-" (afterFirst "-" s) else [].
Proof.
  induction s as [|c s IH]; [reflexivity |].
  rewrite hasHyphen_cons. simpl.
  destruct (Ascii.eqb c "-"); [reflexivity |].
  destruct (JS.split "-" s) as [|seg rest] eqn:E; simpl in *.
  - now apply split_not_nil in E.
  - exact IH.
Qed.

(** [split('-')[1]]: undefined without a hyphen, else the text between the
    first hyphen and the next one (or the end). *)
Lemma split_second (s : string) :
  nth_error (JS.split "-" s) 1 =
  if hasHyphen s then Some (upTo "-" (afterFirst "-" s)) else None.
Proof.
  pose proof (split_tail s) as Ht.
  destruct (JS.split "-" s) as [|seg rest] eqn:E; simpl in *.
  - now apply split_not_nil in E.
  - rewrite Ht. destruct (hasHyphen s); [| reflexivity].
    pose proof (split_head "-" (afterFirst "-" s)) as Hh.
    destruct (JS.split "-" (afterFirst "-" s)); simpl in *; congruence.
Qed.

Lemma upTo_no_sep (s : string) : hasHyphen s = false -> upTo "-" s = s.
Proof.
  induction s as [|c s IH]; [reflexivity |].
  rewrite hasHyphen_cons. simpl.
  destruct (Ascii.eqb c "-"); [discriminate |].
  intros H. now rewrite IH.
Qed.

Lemma toUpperCase_empty (s : string) : JS.toUpperCase s = "" <-> s = "".
Proof. destruct s; simpl; split; congruence. Qed.

End StringFacts.

(** ** Endpoint resolver *)

(** C10: the resolver is a total function of the host name alone; it gives
    the staging base exactly for the host names that contain the marker
    substring and the production base exactly for all others, so it always
    gives one of the two fixed bases. *)
Theorem getApiBase_resolves (hostname : string) :
  (Contains marker hostname -> getApiBase hostname = stagingBase) /\
  (~ Contains marker hostname -> getApiBase hostname = productionBase) /\
  (getApiBase hostname = stagingBase \/ getApiBase hostname = productionBase) /\
  exists base : string, getApiBase hostname = base.
Proof.
  unfold getApiBase.
  destruct (JS.includes marker hostname) eqn:E.
  - apply includes_spec in E. repeat split; auto.
    + intros H; contradiction.
    + now exists stagingBase.
  - assert (~ Contains marker hostname) as N
        by (intros H; apply includes_spec in H; congruence).
    repeat split; auto.
    + intros H; contradiction.
    + now exists productionBase.
Qed.

Lemma getApiBase_resolves_witness :
  Contains marker "admin.operator.online" /\
  getApiBase "admin.operator.online" = stagingBase /\
  ~ Contains marker "admin.weaver.onl" /\
  getApiBase "admin.weaver.onl" = productionBase.
Proof.
  assert (Contains marker "admin.operator.online") as H1
      by (apply includes_spec; reflexivity).
  assert (~ Contains marker "admin.weaver.onl") as H2
      by (intros H; apply includes_spec in H; discriminate H).
  split; [exact H1 |].
  split; [exact (proj1 (getApiBase_resolves "admin.operator.online") H1) |].
  split; [exact H2 |].
  exact (proj1 (proj2 (getApiBase_resolves "admin.weaver.onl")) H2).
Defined.

(** ** The Core Model card *)

Section CoreModel.
Local Arguments Ascii.eqb : simpl never.

Lemma coreModelValue_some (st : ViewState) (s : SystemStatus) :
  status st = Some s ->
  coreModelValue st =
  if hasHyphen (model s)
  then inr (JS.or_else (JS.toUpperCase (upTo "-" (afterFirst "-" (model s)))) "N/A")
  else inl (JS.TypeError "Cannot read properties of undefined (reading 'toUpperCase')").
Proof.
  intros H. unfold coreModelValue. rewrite H, split_second.
  destruct (hasHyphen (model s)); reflexivity.
Qed.

Lemma render_some (st : ViewState) (s : SystemStatus) :
  status st = Some s ->
  render st = match coreModelValue st with
              | inl e => inl e
              | inr modelLabel => inr (DashboardView (dashboard st modelLabel))
              end.
Proof.
  intros H. unfold render. rewrite H, andb_false_r. reflexivity.
Qed.

(** With a status whose model has no hyphen the whole render throws. *)
Lemma render_faults_of_no_hyphen (st : ViewState) (s : SystemStatus) :
  status st = Some s ->
  hasHyphen (model s) = false ->
  render st =
  inl (JS.TypeError "Cannot read properties of undefined (reading 'toUpperCase')").
Proof.
  intros H N. rewrite (render_some st s H), (coreModelValue_some st s H), N.
  reflexivity.
Qed.

(** With a status whose model has a hyphen the dashboard is produced, its
    Core Model card showing the second segment in upper case or the
    fallback. *)
Lemma render_of_hyphen (st : ViewState) (s : SystemStatus) :
  status st = Some s ->
  hasHyphen (model s) = true ->
  render st =
  inr (DashboardView
         (dashboard st
            (JS.or_else (JS.toUpperCase (upTo "-" (afterFirst "-" (model s)))) "N/A"))).
Proof.
  intros H Y. rewrite (render_some st s H), (coreModelValue_some st s H), Y.
  reflexivity.
Qed.

Lemma status_withStatus (d : SystemStatus) (st : ViewState) :
  status (withStatus d st) = Some d.
Proof. reflexivity. Qed.

End CoreModel.

(** C1, at a status whose model is "gpt4": the claim asks for the fallback
    label "N/A" and no throw; the renderer throws a [TypeError] instead, from
    whatever view state the payload was received in, and no view is
    produced. *)
Theorem core_model_faults_on_gpt4 :
  hasHyphen (model hyphenless) = false /\
  forall st : ViewState,
    status (withStatus hyphenless st) = Some hyphenless /\
    render (withStatus hyphenless st) =
    inl (JS.TypeError "Cannot read properties of undefined (reading 'toUpperCase')").
Proof.
  split; [reflexivity |]. intros st. split; [reflexivity |].
  apply (render_faults_of_no_hyphen _ hyphenless); reflexivity.
Qed.

(** C2 as stated fails at the model "gpt-4-turbo": the card shows "4", the
    upper case of the entire text after the first hyphen is "4-TURBO". *)
Lemma label_is_not_whole_suffix :
  status seasoned = Some twoHyphens /\
  hasHyphen (model twoHyphens) = true /\
  render seasoned = inr (DashboardView (dashboard seasoned "4")) /\
  card_value (d_modelCard (dashboard seasoned "4")) = TextValue "4" /\
  JS.toUpperCase (afterFirst "-" (model twoHyphens)) = "4-TURBO" /\
  card_value (d_modelCard (dashboard seasoned "4")) <>
  TextValue (JS.toUpperCase (afterFirst "-" (model twoHyphens))).
Proof.
  repeat split; try reflexivity. discriminate.
Qed.

(** C2, amended: for every model string with at least one hyphen the
    dashboard is rendered and its Core Model card shows the upper case of the
    second segment, the text between the first hyphen and the next hyphen or
    the end of the string, or "N/A" when that segment is empty; when the text
    after the first hyphen is non-empty and has no further hyphen, that is
    the upper case of the entire text after the first hyphen. *)
Theorem label_is_second_segment (st : ViewState) (s : SystemStatus) :
  status st = Some s ->
  hasHyphen (model s) = true ->
  exists d : Dashboard,
    render st = inr (DashboardView d) /\
    card_label (d_modelCard d) = "Core Model" /\
    card_value (d_modelCard d) =
      TextValue (JS.or_else (JS.toUpperCase (upTo "-" (afterFirst "-" (model s)))) "N/A") /\
    (upTo "-" (afterFirst "-" (model s)) = "" ->
     card_value (d_modelCard d) = TextValue "N/A") /\
    (hasHyphen (afterFirst "-" (model s)) = false ->
     afterFirst "-" (model s) <> "" ->
     card_value (d_modelCard d) = TextValue (JS.toUpperCase (afterFirst "-" (model s)))).
Proof.
  intros H Y. eexists. split; [apply (render_of_hyphen st s H Y) |].
  split; [reflexivity |]. split; [reflexivity |]. split.
  - intros E. simpl. rewrite E. reflexivity.
  - intros N NE. simpl. rewrite (upTo_no_sep _ N).
    destruct (afterFirst "-" (model s)); [congruence | reflexivity].
Qed.

Lemma label_is_second_segment_witness :
  exists d : Dashboard,
    render seasoned = inr (DashboardView d) /\
    card_value (d_modelCard d) = TextValue "4".
Proof.
  destruct (label_is_second_segment seasoned twoHyphens eq_refl eq_refl)
    as [d [R [_ [V _]]]].
  exists d. split; [exact R | exact V].
Defined.

(** ** The fetch handlers *)


(** The status fetch never touches the two text cells. *)
Lemma fetchStatus_keeps_text (st : ViewState) (o : FetchOutcome SystemStatus) :
  logs (fetchStatus st o) = logs st /\ service (fetchStatus st o) = service st.
Proof.
  destruct o as [msg | [[|] [msg | d | ]]]; split; reflexivity.
Qed.

(** C4, at an HTTP 500 answer whose body parses and has no [output]: the
    claim asks that the failure be suppressed and the prior text retained;
    the handlers never look at [res.ok], so the retained logs text "boot ok"
    (and likewise the service text) is overwritten by the empty string. *)
Lemma http_error_overwrites_text :
  (exists res, serverErrorBody = Resolved res /\ ok res = false) /\
  logs seasoned = "boot ok" /\
  logs (fetchLogs seasoned serverErrorBody) = "" /\
  logs (fetchLogs seasoned serverErrorBody) <> logs seasoned /\
  service (fetchService seasoned serverErrorBody) <> service seasoned.
Proof.
  split; [eexists; split; reflexivity |].
  repeat split; try reflexivity; discriminate.
Qed.

(** X18: a rejected fetch, a body that does not parse and a body that
    parses to [null], under any HTTP status, leave the whole view state as it
    was; and
    whatever the outcome, the logs fetch leaves [error], [status], [service]
    and [loading] alone, the service fetch [error], [status], [logs] and
    [loading]. *)
Theorem text_fetch_failures_suppressed (st : ViewState) :
  (forall msg : string, fetchLogs st (Rejected msg) = st) /\
  (forall (httpOk : bool) (msg : string),
      fetchLogs st (Resolved (mkResponse httpOk (ParseFailure msg))) = st) /\
  (forall o : FetchOutcome TextBody,
      error (fetchLogs st o) = error st /\
      status (fetchLogs st o) = status st /\
      service (fetchLogs st o) = service st /\
      loading (fetchLogs st o) = loading st) /\
  (forall msg : string, fetchService st (Rejected msg) = st) /\
  (forall (httpOk : bool) (msg : string),
      fetchService st (Resolved (mkResponse httpOk (ParseFailure msg))) = st) /\
  (forall o : FetchOutcome TextBody,
      error (fetchService st o) = error st /\
      status (fetchService st o) = status st /\
      logs (fetchService st o) = logs st /\
      loading (fetchService st o) = loading st) /\
  (forall httpOk : bool,
      fetchLogs st (Resolved (mkResponse httpOk ParsedNull)) = st /\
      fetchService st (Resolved (mkResponse httpOk ParsedNull)) = st).
Proof.
  repeat split;
    match goal with
    | o : FetchOutcome TextBody |- _ =>
        destruct o as [msg | [httpOk [msg | body | ]]]; reflexivity
    | |- _ => reflexivity
    end.
Qed.

(** C5 as stated fails at a body that parses to [null]: the claim has the
    fetch succeed and the text set to the empty string ([output] is
    missing); reading [data.output] throws, the [catch] swallows it and the
    text "boot ok" stays. *)
Lemma null_body_retains_text :
  json (mkResponse true (@ParsedNull TextBody)) = ParsedNull /\
  logs seasoned = "boot ok" /\
  logs (fetchLogs seasoned (Resolved (mkResponse true ParsedNull))) = "boot ok" /\
  logs (fetchLogs seasoned (Resolved (mkResponse true ParsedNull))) <> "" /\
  service (fetchService seasoned (Resolved (mkResponse true ParsedNull))) <> "".
Proof.
  repeat split; try reflexivity; discriminate.
Qed.

(** C5, amended: the logs and the service fetch never look at the [ok]
    flag.  For every response whose body parses to a value other than
    [null], under either value of the flag, the text cell becomes the body's
    [output] when that is truthy (a non-empty string is stored as it is, and
    so is a truthy value that is not a string), and the empty string when
    [output] is missing or falsy, and no other cell changes; so an HTTP error
    answer with such a body without [output] replaces the retained text by
    the empty string.  A body that parses to [null] leaves the view state as
    it was. *)
Theorem text_fetch_ignores_http_status (st : ViewState) (httpOk : bool) :
  (forall body : TextBody,
      let stored := match output body with
                    | Some v => if JS.truthy v then v else JS.VStr ""
                    | None => JS.VStr ""
                    end in
      let afterLogs := fetchLogs st (Resolved (mkResponse httpOk (Parsed body))) in
      let afterService :=
        fetchService st (Resolved (mkResponse httpOk (Parsed body))) in
      logs afterLogs = stored /\
      service afterLogs = service st /\ status afterLogs = status st /\
      error afterLogs = error st /\ loading afterLogs = loading st /\
      service afterService = stored /\
      logs afterService = logs st /\ status afterService = status st /\
      error afterService = error st /\ loading afterService = loading st) /\
  (forall (c : ascii) (s : string),
      let body := mkTextBody (Some (JS.VStr (String c s))) in
      logs (fetchLogs st (Resolved (mkResponse httpOk (Parsed body)))) =
        JS.VStr (String c s) /\
      service (fetchService st (Resolved (mkResponse httpOk (Parsed body)))) =
        JS.VStr (String c s)) /\
  logs (fetchLogs st (Resolved (mkResponse httpOk
                                  (Parsed (mkTextBody (Some (JS.VNum 42))))))) =
    JS.VNum 42 /\
  logs (fetchLogs st (Resolved (mkResponse httpOk
                                  (Parsed (mkTextBody (Some JS.VNull)))))) = "" /\
  logs (fetchLogs st (Resolved (mkResponse false (Parsed (mkTextBody None))))) = "" /\
  service (fetchService st (Resolved (mkResponse false (Parsed (mkTextBody None))))) = "" /\
  fetchLogs st (Resolved (mkResponse httpOk ParsedNull)) = st /\
  fetchService st (Resolved (mkResponse httpOk ParsedNull)) = st.
Proof.
  split.
  - intros [[v|]]; cbv zeta; repeat split.
  - repeat split.
Qed.

(** ** Loading flag and placeholder *)

Section Loading.

Lemma loading_fetchStatus (st : ViewState) (o : FetchOutcome SystemStatus) :
  loading (fetchStatus st o) = false.
Proof. destruct o as [msg | [[|] [msg | d | ]]]; reflexivity. Qed.

Lemma loading_fetchLogs (st : ViewState) (o : FetchOutcome TextBody) :
  loading (fetchLogs st o) = loading st.
Proof. destruct o as [msg | [httpOk [msg | body | ]]]; reflexivity. Qed.

Lemma loading_fetchService (st : ViewState) (o : FetchOutcome TextBody) :
  loading (fetchService st o) = loading st.
Proof. destruct o as [msg | [httpOk [msg | body | ]]]; reflexivity. Qed.

Lemma status_fetchLogs (st : ViewState) (o : FetchOutcome TextBody) :
  status (fetchLogs st o) = status st.
Proof. destruct o as [msg | [httpOk [msg | body | ]]]; reflexivity. Qed.

Lemma status_fetchService (st : ViewState) (o : FetchOutcome TextBody) :
  status (fetchService st o) = status st.
Proof. destruct o as [msg | [httpOk [msg | body | ]]]; reflexivity. Qed.

(** The flag after a run from any state: still set only if it was set and
    no status fetch settled. *)
Lemma loading_fold (evs : list Settled) (st : ViewState) :
  loading (fold_left step evs st) =
  loading st && negb (existsb isStatusSettled evs).
Proof.
  revert st; induction evs as [|ev evs IH]; intros st; simpl.
  - now rewrite andb_true_r.
  - rewrite IH. destruct ev as [o | o | o]; simpl.
    + now rewrite loading_fetchStatus, andb_false_r.
    + now rewrite loading_fetchLogs.
    + now rewrite loading_fetchService.
Qed.

(** As long as no status fetch settled, the status cell is untouched. *)
Lemma status_fold (evs : list Settled) (st : ViewState) :
  existsb isStatusSettled evs = false ->
  status (fold_left step evs st) = status st.
Proof.
  revert st; induction evs as [|ev evs IH]; intros st; simpl; [reflexivity |].
  destruct ev as [o | o | o]; simpl; [discriminate | |]; intros H; rewrite (IH _ H).
  - apply status_fetchLogs.
  - apply status_fetchService.
Qed.

Lemma received_is_settled (evs : list Settled) :
  existsb isStatusSettled evs = false -> existsb isStatusReceived evs = false.
Proof.
  induction evs as [|ev evs IH]; simpl; [reflexivity |].
  destruct ev as [[msg | [[|] [msg | d | ]]] | o | o]; simpl; auto; discriminate.
Qed.

(** The early return of [App]: the placeholder and nothing else, exactly
    when [loading && !status]. *)
Lemma render_placeholder (st : ViewState) :
  render st = inr Initializing <-> loading st = true /\ status st = None.
Proof.
  unfold render. destruct (loading st), (status st) as [s|]; simpl.
  - split; [| intros [_ H]; discriminate].
    destruct (coreModelValue _); discriminate.
  - tauto.
  - split; [| intros [H _]; discriminate].
    destruct (coreModelValue _); discriminate.
  - split; [| intros [H _]; discriminate].
    destruct (coreModelValue _); discriminate.
Qed.

End Loading.

(** C9: the loading flag starts true; after any sequence of settled
    fetches it is still true exactly when no status fetch has settled yet,
    every settled status fetch (success or failure) sets it to false and the
    logs and service fetches leave it alone.  The renderer returns the
    initializing placeholder, which carries no panel, exactly when the flag
    is true and no status has been received. *)
Theorem loading_and_placeholder (evs : list Settled) :
  loading initialState = true /\
  loading (run evs) = negb (existsb isStatusSettled evs) /\
  (forall (st : ViewState) (o : FetchOutcome SystemStatus),
      loading (fetchStatus st o) = false) /\
  (forall (st : ViewState) (o : FetchOutcome TextBody),
      loading (fetchLogs st o) = loading st /\
      loading (fetchService st o) = loading st) /\
  (render (run evs) = inr Initializing <->
   loading (run evs) = true /\ existsb isStatusReceived evs = false) /\
  (forall st : ViewState,
      render st = inr Initializing <-> loading st = true /\ status st = None) /\
  (forall d : Dashboard, render (run evs) = inr Initializing ->
                         render (run evs) <> inr (DashboardView d)).
Proof.
  assert (loading (run evs) = negb (existsb isStatusSettled evs)) as L
      by (unfold run; now rewrite loading_fold).
  split; [reflexivity |]. split; [exact L |].
  split; [apply loading_fetchStatus |].
  split; [intros st o; split; [apply loading_fetchLogs | apply loading_fetchService] |].
  split; [| split; [apply render_placeholder | intros d E; rewrite E; discriminate]].
  rewrite render_placeholder. split.
  - intros [T _]. split; [exact T |].
    apply received_is_settled. rewrite T in L.
    destruct (existsb isStatusSettled evs); [discriminate | reflexivity].
  - intros [T _]. split; [exact T |].
    unfold run. rewrite status_fold; [reflexivity |].
    rewrite T in L. destruct (existsb isStatusSettled evs); [discriminate | reflexivity].
Qed.

(** ** The poller *)

Section PollerFacts.
Variable hostname : string.
Local Open Scope Z_scope.

Lemma issued_round (t : Z) (p : Poller) :
  issued (round hostname t p) = (issued p ++ roundRequests hostname t)%list.
Proof.
  unfold round, issue, roundRequests; simpl.
  now rewrite <- !app_assoc.
Qed.

Lemma issued_tick (due : Z) (p : Poller) :
  issued (tick hostname due p) = (issued p ++ roundRequests hostname due)%list.
Proof. unfold tick. cbn [issued]. apply issued_round. Qed.

Lemma dueTicks_step (due target : Z) :
  due <= target -> dueTicks due target = S (dueTicks (due + period) target).
Proof.
  intros H. unfold dueTicks, period.
  destruct (Z.leb_spec due target) as [_|]; [| lia].
  destruct (Z.leb_spec (due + 5000) target) as [H'|H'].
  - replace (target - due) with ((target - (due + 5000)) + 1 * 5000) by lia.
    rewrite Z.div_add by lia.
    rewrite Z2Nat.inj_add by (try apply Z.div_pos; lia).
    simpl. f_equal. lia.
  - rewrite Z.div_small by lia. reflexivity.
Qed.

Lemma dueTicks_none (due target : Z) : target < due -> dueTicks due target = O.
Proof.
  intros H. unfold dueTicks. destruct (Z.leb_spec due target); [lia | reflexivity].
Qed.

(** With enough fuel the event loop runs every callback that falls due, one
    round each at its due time, and leaves the timer armed for the first
    instant after the target. *)
Lemma runTimers_armed (fuel : nat) (target : Z) :
  forall (p : Poller) (due : Z),
    interval p = Some due ->
    (dueTicks due target <= fuel)%nat ->
    issued (runTimers hostname fuel target p) =
      (issued p ++ flat_map (roundRequests hostname)
                            (timesFrom due (dueTicks due target)))%list /\
    interval (runTimers hostname fuel target p) =
      Some (due + period * Z.of_nat (dueTicks due target)).
Proof.
  induction fuel as [|fuel IH]; intros p due Hi Hf.
  - assert (dueTicks due target = O) as -> by lia. cbn [runTimers timesFrom flat_map].
    rewrite app_nil_r, Hi. split; [reflexivity | f_equal; lia].
  - cbn [runTimers]. rewrite Hi. destruct (Z.leb_spec due target) as [Hle|Hgt].
    + rewrite (dueTicks_step _ _ Hle) in *.
      destruct (IH (tick hostname due p) (due + period) eq_refl) as [I1 I2]; [lia |].
      rewrite I1, I2. split.
      * rewrite issued_tick. cbn [timesFrom flat_map]. now rewrite <- app_assoc.
      * f_equal. lia.
    + rewrite (dueTicks_none _ _ Hgt). cbn [timesFrom flat_map].
      rewrite app_nil_r, Hi. split; [reflexivity | f_equal; lia].
Qed.

Lemma runTimers_cleared (fuel : nat) (target : Z) (p : Poller) :
  interval p = None -> runTimers hostname fuel target p = p.
Proof. intros H. destruct fuel; simpl; [| rewrite H]; reflexivity. Qed.

Lemma dueTicks_fuel (t due ms : Z) :
  t < due -> 0 <= ms -> (dueTicks due (t + ms) <= Z.to_nat ms)%nat.
Proof.
  intros Hd Hms. unfold dueTicks, period.
  destruct (Z.leb_spec due (t + ms)) as [Hle|]; [| lia].
  assert ((t + ms - due) / 5000 <= ms - 1).
  { transitivity (t + ms - due); [| lia].
    apply Z.div_le_upper_bound; lia. }
  assert (0 <= (t + ms - due) / 5000) by (apply Z.div_pos; lia).
  lia.
Qed.

(** Letting time pass on a poller whose timer is armed for later. *)
Lemma issued_advance (ms : Z) (p : Poller) (due : Z) :
  interval p = Some due -> now p < due -> 0 <= ms ->
  issued (advance hostname ms p) =
    (issued p ++ flat_map (roundRequests hostname)
                          (timesFrom due (dueTicks due (now p + ms))))%list.
Proof.
  intros Hi Hd Hms. unfold advance. simpl.
  apply (runTimers_armed _ _ p due Hi). now apply dueTicks_fuel.
Qed.

Lemma requestTimes_rounds (e : Endpoint) (ts : list Z) :
  map req_time
      (filter (fun r => Endpoint_eqb (req_endpoint r) e)
              (flat_map (roundRequests hostname) ts)) = ts.
Proof.
  induction ts as [|t ts IH]; [reflexivity |].
  cbn [flat_map]. rewrite filter_app, map_app, IH.
  destruct e; reflexivity.
Qed.

Lemma timesFrom_seq (t : Z) (n : nat) :
  timesFrom t n = map (fun i => t + period * Z.of_nat i) (seq 0 n).
Proof.
  revert t; induction n as [|n IH]; intros t; [reflexivity |].
  cbn [timesFrom seq map]. rewrite IH, <- seq_shift, map_map.
  f_equal; [unfold period; lia |]. apply map_ext. intros i. unfold period. lia.
Qed.

Lemma dueTicks_first (ms : Z) :
  0 <= ms -> dueTicks period ms = Z.to_nat (ms / period).
Proof.
  intros H. unfold dueTicks, period.
  destruct (Z.leb_spec 5000 ms) as [Hle|Hlt].
  - replace ms with ((ms - 5000) + 1 * 5000) at 2 by lia.
    rewrite Z.div_add by lia.
    rewrite Z2Nat.inj_add by (try apply Z.div_pos; lia).
    simpl. lia.
  - now rewrite Z.div_small by lia.
Qed.

(** The requests sent from mount until [ms] milliseconds later: the round
    of the mount, then one round per period. *)
Lemma issued_after_mount (ms : Z) :
  0 <= ms ->
  issued (advance hostname ms (mount hostname idle)) =
  flat_map (roundRequests hostname)
           (map (fun i => period * Z.of_nat i) (seq 0 (S (Z.to_nat (ms / period))))).
Proof.
  intros H.
  rewrite (issued_advance ms (mount hostname idle) period eq_refl)
    by (unfold period; simpl; lia).
  change (now (mount hostname idle) + ms) with (0 + ms).
  rewrite Z.add_0_l, (dueTicks_first ms H), timesFrom_seq.
  cbn [seq map flat_map]. rewrite <- seq_shift, !map_map.
  change (issued (mount hostname idle)) with (roundRequests hostname 0).
  f_equal. f_equal. apply map_ext. intros i. unfold period. lia.
Qed.

(** After the cleanup no request is ever issued again. *)
Lemma issued_after_unmount (ms : Z) (p : Poller) :
  issued (advance hostname ms (unmount p)) = issued p /\
  interval (advance hostname ms (unmount p)) = None.
Proof.
  unfold advance. rewrite runTimers_cleared by reflexivity. split; reflexivity.
Qed.

End PollerFacts.

(** C7: at mount the poller issues one round of the three fetches at once;
    [ms] milliseconds after mount, with no teardown, every endpoint has been
    requested at the instants 0, 5000, 10000, ... up to [ms], one round per
    5 seconds; after 20 seconds that is exactly 5 rounds per endpoint; and
    once the cleanup has cleared the timer no further request is issued,
    however much time passes (with teardown after 12 seconds: the rounds at
    0, 5 and 10 seconds and no more). *)
Theorem poller_schedule (hostname : string) :
  issued (mount hostname idle) = roundRequests hostname 0 /\
  (forall e : Endpoint, requestTimes e (mount hostname idle) = [0%Z]) /\
  (forall (ms : Z) (e : Endpoint),
      (0 <= ms)%Z ->
      requestTimes e (advance hostname ms (mount hostname idle)) =
      map (fun i => (period * Z.of_nat i)%Z) (seq 0 (S (Z.to_nat (ms / period))))) /\
  (forall e : Endpoint,
      length (requestTimes e (advance hostname 20000 (mount hostname idle))) = 5) /\
  (forall (p : Poller) (ms : Z),
      issued (advance hostname ms (unmount p)) = issued p) /\
  (forall (e : Endpoint) (ms : Z),
      requestTimes e
        (advance hostname ms (unmount (advance hostname 12000 (mount hostname idle)))) =
      [0; 5000; 10000]%Z).
Proof.
  split; [reflexivity |].
  split; [intros e; destruct e; reflexivity |].
  assert (forall (ms : Z) (e : Endpoint),
             (0 <= ms)%Z ->
             requestTimes e (advance hostname ms (mount hostname idle)) =
             map (fun i => (period * Z.of_nat i)%Z)
                 (seq 0 (S (Z.to_nat (ms / period))))) as Hrounds.
  { intros ms e H. unfold requestTimes.
    rewrite (issued_after_mount hostname ms H). apply requestTimes_rounds. }
  split; [exact Hrounds |].
  split; [intros e; rewrite Hrounds by lia; reflexivity |].
  split; [intros p ms; apply issued_after_unmount |].
  intros e ms. unfold requestTimes at 1.
  rewrite (proj1 (issued_after_unmount hostname ms _)).
  fold (requestTimes e (advance hostname 12000 (mount hostname idle))).
  rewrite Hrounds by lia. reflexivity.
Qed.

Lemma poller_schedule_witness :
  requestTimes StatusEndpoint
    (advance "admin.weaver.onl" 7500 (mount "admin.weaver.onl" idle)) = [0; 5000]%Z.
Proof.
  exact (proj1 (proj2 (proj2 (poller_schedule "admin.weaver.onl")))
               7500%Z StatusEndpoint ltac:(lia)).
Defined.

(** ** Lists and counts *)

Section Lists.

(** The session list is the payload's array mapped in order: one row per
    session, keyed by and showing its key. *)
Lemma sessionRows_keys (st : ViewState) (s : SystemStatus) :
  status st = Some s ->
  map row_key (sessionRows st) = map key (sessions s) /\
  map row_title (sessionRows st) = map key (sessions s).
Proof.
  intros H. unfold sessionRows. rewrite H, !map_map. split; reflexivity.
Qed.

Lemma subagentRows_keys (st : ViewState) (s : SystemStatus) :
  status st = Some s ->
  map sub_key (subagentRows st) = map id (subagents s).
Proof.
  intros H. unfold subagentRows. rewrite H, map_map. reflexivity.
Qed.

Lemma occurrences_once (ks : list string) (k : string) :
  NoDup ks -> In k ks -> occurrences k ks = 1.
Proof.
  intros N I. unfold occurrences.
  now apply (proj1 (NoDup_count_occ' string_dec ks) N).
Qed.

(** [status?.sessions.length || 0] is the length of the array. *)
Lemma sessionsCount_some (st : ViewState) (s : SystemStatus) :
  status st = Some s -> sessionsCount st = length (sessions s).
Proof.
  intros H. unfold sessionsCount. rewrite H. simpl.
  destruct (length (sessions s)); reflexivity.
Qed.

Lemma subagentsCount_some (st : ViewState) (s : SystemStatus) :
  status st = Some s -> subagentsCount st = length (subagents s).
Proof.
  intros H. unfold subagentsCount. rewrite H. simpl.
  destruct (length (subagents s)); reflexivity.
Qed.

(** Whenever the model string has a hyphen, the two count cards show the
    two lengths, and an empty sessions array gives the placeholder, no row
    and the count 0. *)
Lemma count_cards_of_hyphen (st : ViewState) (s : SystemStatus) :
  status st = Some s ->
  hasHyphen (model s) = true ->
  exists d : Dashboard,
    render st = inr (DashboardView d) /\
    card_value (d_sessionsCard d) = NumValue (length (sessions s)) /\
    card_value (d_subagentsCard d) = NumValue (length (subagents s)) /\
    (sessions s = [] ->
     d_sessionRows d = [] /\
     d_sessionsEmpty d = Some (EmptyState "No active sessions found") /\
     card_value (d_sessionsCard d) = NumValue 0).
Proof.
  intros H Y. eexists. split; [apply (render_of_hyphen st s H Y) |].
  cbn [dashboard d_sessionsCard d_subagentsCard d_sessionRows d_sessionsEmpty
       StatCard card_value p_value].
  rewrite (sessionsCount_some st s H), (subagentsCount_some st s H).
  split; [reflexivity |]. split; [reflexivity |].
  intros E. unfold sessionRows, sessionsEmpty. rewrite H, E. repeat split.
Qed.

End Lists.

(** A payload whose model string has a hyphen, once received and rendered,
    gives a dashboard whose session rows carry the payload's session keys
    and whose subagent rows carry the payload's subagent ids as React keys,
    in the order of the arrays; every key occurs among the rows as often as
    in the payload, which is exactly once where the payload's keys are
    distinct. *)
Theorem lists_round_trip (st : ViewState) (d : SystemStatus) :
  hasHyphen (model d) = true ->
  exists v : Dashboard,
    render (withStatus d st) = inr (DashboardView v) /\
    map row_key (d_sessionRows v) = map key (sessions d) /\
    map row_title (d_sessionRows v) = map key (sessions d) /\
    map sub_key (d_subagentRows v) = map id (subagents d) /\
    (forall k : string,
        occurrences k (map row_key (d_sessionRows v)) =
        occurrences k (map key (sessions d))) /\
    (forall k : string,
        occurrences k (map sub_key (d_subagentRows v)) =
        occurrences k (map id (subagents d))) /\
    (NoDup (map key (sessions d)) ->
     forall k : string, In k (map key (sessions d)) ->
                        occurrences k (map row_key (d_sessionRows v)) = 1) /\
    (NoDup (map id (subagents d)) ->
     forall k : string, In k (map id (subagents d)) ->
                        occurrences k (map sub_key (d_subagentRows v)) = 1).
Proof.
  intros Y.
  pose proof (status_withStatus d st) as H.
  destruct (sessionRows_keys _ _ H) as [K1 K2].
  pose proof (subagentRows_keys _ _ H) as K3.
  eexists. split; [apply (render_of_hyphen _ d H Y) |].
  cbn [dashboard d_sessionRows d_subagentRows].
  rewrite K1, K3.
  repeat split; auto using occurrences_once.
Qed.

Lemma lists_round_trip_witness :
  exists v : Dashboard,
    render (withStatus twoHyphens initialState) = inr (DashboardView v) /\
    map row_key (d_sessionRows v) = ["telegram:4411"; "cli:default"] /\
    map sub_key (d_subagentRows v) = ["sub-01"].
Proof.
  destruct (lists_round_trip initialState twoHyphens eq_refl)
    as [v [R [K1 [_ [K3 _]]]]].
  exists v. split; [exact R |]. split; [exact K1 | exact K3].
Defined.

(** C6, at the payload with model "gpt4", one session and one subagent:
    the claim asks that the session key and the subagent id each be
    reproduced once; the renderer throws at the Core Model card instead, from
    whatever view state the payload was received in, and no row is
    rendered. *)
Theorem lists_lost_on_gpt4 :
  map key (sessions hyphenless) = ["telegram:4411"] /\
  map id (subagents hyphenless) = ["sub-01"] /\
  forall st : ViewState,
    status (withStatus hyphenless st) = Some hyphenless /\
    render (withStatus hyphenless st) =
      inl (JS.TypeError "Cannot read properties of undefined (reading 'toUpperCase')") /\
    forall d : Dashboard, render (withStatus hyphenless st) <> inr (DashboardView d).
Proof.
  split; [reflexivity |]. split; [reflexivity |]. intros st. split; [reflexivity |].
  assert (render (withStatus hyphenless st) =
          inl (JS.TypeError "Cannot read properties of undefined (reading 'toUpperCase')"))
    as R by (apply (render_faults_of_no_hyphen _ hyphenless); reflexivity).
  split; [exact R |]. intros d. rewrite R. discriminate.
Qed.

(** C8, at a status with no sessions whose model is "gpt4": the claim asks
    for the count 0 on the sessions card and for the empty-state
    placeholder; the renderer throws at the Core Model card instead and no
    card and no placeholder is shown. *)
Theorem count_cards_lost_on_gpt4 :
  sessions quietHyphenless = [] /\
  forall st : ViewState,
    status (withStatus quietHyphenless st) = Some quietHyphenless /\
    render (withStatus quietHyphenless st) =
      inl (JS.TypeError "Cannot read properties of undefined (reading 'toUpperCase')") /\
    forall d : Dashboard, render (withStatus quietHyphenless st) <> inr (DashboardView d).
Proof.
  split; [reflexivity |]. intros st. split; [reflexivity |].
  assert (render (withStatus quietHyphenless st) =
          inl (JS.TypeError "Cannot read properties of undefined (reading 'toUpperCase')"))
    as R by (apply (render_faults_of_no_hyphen _ quietHyphenless); reflexivity).
  split; [exact R |]. intros d. rewrite R. discriminate.
Qed.

(** * Further properties of the component *)

(** ** The renderer beyond the claims *)

Section RendererFacts.
Local Arguments Ascii.eqb : simpl never.

Lemma hasHyphen_nonempty (m : string) : hasHyphen m = true -> m <> "".
Proof. intros H E. subst m. discriminate H. Qed.

Lemma render_none (st : ViewState) :
  status st = None ->
  render st = if loading st then inr Initializing
              else inr (DashboardView (dashboard st "N/A")).
Proof.
  intros H. unfold render, coreModelValue. rewrite H.
  destruct (loading st); reflexivity.
Qed.

(** What a successful render returned, by the status it was given. *)
Lemma render_dashboard_inv (st : ViewState) (d : Dashboard) :
  render st = inr (DashboardView d) ->
  (status st = None /\ d = dashboard st "N/A") \/
  (exists s, status st = Some s /\ hasHyphen (model s) = true /\
             d = dashboard st
                   (JS.or_else (JS.toUpperCase (upTo "-" (afterFirst "-" (model s))))
                               "N/A")).
Proof.
  intros R. destruct (status st) as [s|] eqn:H.
  - right. exists s. split; [reflexivity |].
    destruct (hasHyphen (model s)) eqn:Y.
    + rewrite (render_of_hyphen st s H Y) in R. split; [reflexivity | congruence].
    + rewrite (render_faults_of_no_hyphen st s H Y) in R. discriminate.
  - left. split; [reflexivity |]. rewrite (render_none st H) in R.
    destruct (loading st); [discriminate | congruence].
Qed.

Lemma or_else_nonempty (a b : string) : b <> "" -> JS.or_else a b <> "".
Proof. intros H. destruct a; simpl; [exact H | discriminate]. Qed.

Lemma upper_ascii_not_lower (c : ascii) : isLower (JS.upper_ascii c) = false.
Proof.
  unfold JS.upper_ascii, isLower.
  destruct ((97 <=? nat_of_ascii c)%nat && (nat_of_ascii c <=? 122)%nat) eqn:E;
    [| exact E].
  apply andb_true_iff in E as [E1 E2].
  apply Nat.leb_le in E1. apply Nat.leb_le in E2.
  rewrite nat_ascii_embedding by lia.
  apply andb_false_iff. left. apply Nat.leb_gt. lia.
Qed.

Lemma upper_ascii_hyphen (c : ascii) :
  Ascii.eqb (JS.upper_ascii c) "-" = Ascii.eqb c "-".
Proof.
  unfold JS.upper_ascii.
  destruct ((97 <=? nat_of_ascii c)%nat && (nat_of_ascii c <=? 122)%nat) eqn:E;
    [| reflexivity].
  apply andb_true_iff in E as [E1 E2].
  apply Nat.leb_le in E1. apply Nat.leb_le in E2.
  destruct (Ascii.eqb_spec c "-") as [->|_];
    [change (nat_of_ascii "-") with 45 in E1; lia |].
  destruct (Ascii.eqb_spec (ascii_of_nat (nat_of_ascii c - 32)) "-") as [A|_];
    [| reflexivity].
  apply (f_equal nat_of_ascii) in A.
  rewrite nat_ascii_embedding in A by lia.
  change (nat_of_ascii "-") with 45 in A. lia.
Qed.

Lemma toUpperCase_no_lower (s : string) : anyChar isLower (JS.toUpperCase s) = false.
Proof.
  induction s as [|c s IH]; [reflexivity |].
  cbn [JS.toUpperCase anyChar]. now rewrite upper_ascii_not_lower, IH.
Qed.

Lemma toUpperCase_hyphen (s : string) : hasHyphen (JS.toUpperCase s) = hasHyphen s.
Proof.
  induction s as [|c s IH]; [reflexivity |].
  cbn [JS.toUpperCase]. now rewrite !hasHyphen_cons, upper_ascii_hyphen, IH.
Qed.

Lemma upTo_no_hyphen (s : string) : hasHyphen (upTo "-" s) = false.
Proof.
  induction s as [|c s IH]; [reflexivity |].
  cbn [upTo]. destruct (Ascii.eqb c "-") eqn:E; [reflexivity |].
  now rewrite hasHyphen_cons, E.
Qed.

(** The label of the Core Model card, whenever one is computed. *)
Lemma label_shape (seg : string) :
  let l := JS.or_else (JS.toUpperCase (upTo "-" seg)) "N/A" in
  l <> "" /\ hasHyphen l = false /\ anyChar isLower l = false.
Proof.
  cbv zeta. split; [apply or_else_nonempty; discriminate |].
  destruct (JS.toUpperCase (upTo "-" seg)) eqn:E; simpl JS.or_else.
  - split; reflexivity.
  - rewrite <- E. split.
    + rewrite toUpperCase_hyphen. apply upTo_no_hyphen.
    + apply toUpperCase_no_lower.
Qed.

End RendererFacts.

(** X2: once loading is over and no status is held (the first status fetch
    failed), the dashboard is rendered from fallbacks: uptime "0s", the
    error-coloured indicator, both counts 0, the label "N/A", no sub-values,
    and both lists blank, with neither rows nor an empty-state
    placeholder. *)
Theorem render_without_status (st : ViewState) :
  status st = None ->
  loading st = false ->
  exists d : Dashboard,
    render st = inr (DashboardView d) /\
    d_uptime d = "0s" /\
    d_indicator d = BgError /\
    d_sessionsCard d = mkStatCardView "Active Sessions" (NumValue 0) None /\
    d_subagentsCard d = mkStatCardView "Running Subagents" (NumValue 0) None /\
    d_modelCard d = mkStatCardView "Core Model" (TextValue "N/A") None /\
    d_workspaceCard d = mkStatCardView "Workspace" (TextValue "Isolated") None /\
    d_sessionsTotal d = 0 /\ d_subagentsTotal d = 0 /\
    d_sessionRows d = [] /\ d_subagentRows d = [] /\
    d_sessionsEmpty d = None /\ d_subagentsEmpty d = None.
Proof.
  intros H L. eexists. split; [rewrite (render_none st H), L; reflexivity |].
  unfold dashboard, uptimeText, indicator, sessionsCount, subagentsCount,
    sessionRows, subagentRows, sessionsEmpty, subagentsEmpty.
  rewrite H. repeat split.
Qed.

Lemma render_without_status_witness :
  exists d : Dashboard,
    render (fetchStatus initialState (Rejected "Failed to fetch")) =
      inr (DashboardView d) /\
    d_sessionsEmpty d = None /\
    d_banner d = Some "Connection lost: Failed to fetch".
Proof.
  destruct (render_without_status
              (fetchStatus initialState (Rejected "Failed to fetch"))
              eq_refl eq_refl) as [d [R F]].
  exists d. split; [exact R |].
  split; [exact (proj1 (proj2 (proj2 (proj2 (proj2 (proj2 (proj2 (proj2
                   (proj2 (proj2 (proj2 F))))))))))) |].
  assert (inr (DashboardView d) =
          inr (A := JS.exn)
              (DashboardView
                 (dashboard (fetchStatus initialState (Rejected "Failed to fetch"))
                            "N/A"))) as E by (rewrite <- R; reflexivity).
  injection E as ->. reflexivity.
Defined.

Section ViewFacts.

Lemma fetchStatus_failure (st : ViewState) (o : FetchOutcome SystemStatus) (msg : string) :
  statusFailure o = Some msg ->
  fetchStatus st o = setLoading false (setError (Some msg) st).
Proof.
  destruct o as [m | [[|] [m | d | ]]]; simpl; intros E;
    try discriminate; injection E as <-; reflexivity.
Qed.

Lemma dashboard_of_render (st : ViewState) (d : Dashboard) :
  render st = inr (DashboardView d) -> exists l : string, d = dashboard st l.
Proof.
  intros R. destruct (render_dashboard_inv st d R) as [[_ E] | [s [_ [_ E]]]];
    eexists; exact E.
Qed.

Lemma num_or_zero_some (n : nat) : JS.num_or_zero (Some n) = n.
Proof. destruct n; reflexivity. Qed.

Lemma sessionsCount_rows (st : ViewState) : sessionsCount st = length (sessionRows st).
Proof.
  unfold sessionsCount, sessionRows. destruct (status st) as [s|]; [| reflexivity].
  cbn [option_map]. now rewrite num_or_zero_some, length_map.
Qed.

Lemma subagentsCount_rows (st : ViewState) :
  subagentsCount st = length (subagentRows st).
Proof.
  unfold subagentsCount, subagentRows. destruct (status st) as [s|]; [| reflexivity].
  cbn [option_map]. now rewrite num_or_zero_some, length_map.
Qed.

Lemma sessionsEmpty_iff (st : ViewState) :
  (sessionsEmpty st = Some (EmptyState "No active sessions found") <->
   status st <> None /\ sessionRows st = []) /\
  (sessionsEmpty st = None <-> status st = None \/ sessionRows st <> []).
Proof.
  unfold sessionsEmpty, sessionRows. destruct (status st) as [s|].
  - destruct (sessions s) as [|x xs]; simpl; intuition (discriminate || congruence).
  - simpl. intuition (discriminate || congruence).
Qed.

Lemma subagentsEmpty_iff (st : ViewState) :
  (subagentsEmpty st = Some (EmptyState "No background tasks running") <->
   status st <> None /\ subagentRows st = []) /\
  (subagentsEmpty st = None <-> status st = None \/ subagentRows st <> []).
Proof.
  unfold subagentsEmpty, subagentRows. destruct (status st) as [s|].
  - destruct (subagents s) as [|x xs]; simpl; intuition (discriminate || congruence).
  - simpl. intuition (discriminate || congruence).
Qed.

End ViewFacts.

(** X3: a status fetch that fails while a status with a well-formed model is
    held leaves the rendered dashboard as it was, lists, cards and text
    panels included, except for the banner, which now reads "Connection
    lost: " followed by the failure message (and is absent when that message
    is empty). *)
Theorem failure_keeps_view
        (st : ViewState) (s : SystemStatus)
        (o : FetchOutcome SystemStatus) (msg : string) :
  status st = Some s ->
  hasHyphen (model s) = true ->
  statusFailure o = Some msg ->
  exists d : Dashboard,
    render st = inr (DashboardView d) /\
    render (fetchStatus st o) = inr (DashboardView (setBanner (bannerOf msg) d)).
Proof.
  intros H Y F. eexists. split; [apply (render_of_hyphen st s H Y) |].
  rewrite (fetchStatus_failure st o msg F).
  assert (status (setLoading false (setError (Some msg) st)) = Some s) as H'
      by exact H.
  rewrite (render_of_hyphen _ s H' Y).
  destruct msg; reflexivity.
Qed.

Lemma failure_keeps_view_witness :
  exists d : Dashboard,
    render seasoned = inr (DashboardView d) /\
    render (fetchStatus seasoned (Resolved (mkResponse false (ParseFailure "<html>")))) =
      inr (DashboardView
             (setBanner (Some "Connection lost: Failed to fetch status") d)).
Proof.
  exact (failure_keeps_view seasoned twoHyphens
           (Resolved (mkResponse false (ParseFailure "<html>")))
           "Failed to fetch status" eq_refl eq_refl eq_refl).
Defined.

(** X5: in every rendered dashboard the value of the Core Model card is a
    non-empty text without a hyphen and without a lower-case letter. *)
Theorem model_label_shape (st : ViewState) (d : Dashboard) :
  render st = inr (DashboardView d) ->
  exists l : string,
    card_value (d_modelCard d) = TextValue l /\
    l <> "" /\ hasHyphen l = false /\ anyChar isLower l = false.
Proof.
  intros R. destruct (render_dashboard_inv st d R) as [[_ ->] | [s [_ [_ ->]]]].
  - exists "N/A". repeat split. discriminate.
  - eexists. split; [reflexivity |]. apply label_shape.
Qed.

Lemma model_label_shape_witness :
  exists l : string,
    card_value (d_modelCard (dashboard seasoned "4")) = TextValue l /\ l <> "".
Proof.
  destruct (model_label_shape seasoned (dashboard seasoned "4") eq_refl)
    as [l [V [N _]]].
  exists l. split; [exact V | exact N].
Defined.

(** X6: in every rendered dashboard the count on a stat card, the total in
    the section heading and the number of rows of the list agree, for the
    sessions and for the subagents; the empty-state placeholder of a list is
    shown exactly when a status is held and the list has no row. *)
Theorem counts_rows_agree (st : ViewState) (d : Dashboard) :
  render st = inr (DashboardView d) ->
  card_value (d_sessionsCard d) = NumValue (length (d_sessionRows d)) /\
  d_sessionsTotal d = length (d_sessionRows d) /\
  card_value (d_subagentsCard d) = NumValue (length (d_subagentRows d)) /\
  d_subagentsTotal d = length (d_subagentRows d) /\
  (d_sessionsEmpty d = Some (EmptyState "No active sessions found") <->
   status st <> None /\ d_sessionRows d = []) /\
  (d_sessionsEmpty d = None <-> status st = None \/ d_sessionRows d <> []) /\
  (d_subagentsEmpty d = Some (EmptyState "No background tasks running") <->
   status st <> None /\ d_subagentRows d = []) /\
  (d_subagentsEmpty d = None <-> status st = None \/ d_subagentRows d <> []).
Proof.
  intros R. destruct (dashboard_of_render st d R) as [l ->].
  cbn [dashboard d_sessionsCard d_subagentsCard d_sessionsTotal d_subagentsTotal
       d_sessionRows d_subagentRows d_sessionsEmpty d_subagentsEmpty
       StatCard card_value p_value].
  rewrite (sessionsCount_rows st), (subagentsCount_rows st).
  destruct (sessionsEmpty_iff st) as [A B], (subagentsEmpty_iff st) as [C D].
  do 4 (split; [reflexivity |]).
  split; [exact A |]. split; [exact B |]. split; [exact C | exact D].
Qed.

Lemma counts_rows_agree_witness :
  card_value (d_sessionsCard (dashboard seasoned "4")) = NumValue 2 /\
  d_sessionsEmpty (dashboard seasoned "4") = None.
Proof.
  pose proof (counts_rows_agree seasoned (dashboard seasoned "4") eq_refl)
    as [V [_ [_ [_ [_ [E _]]]]]].
  split; [exact V |]. apply E. right. discriminate.
Defined.

(** X7: whenever the dashboard is rendered from a status, the Core Model
    card carries the full model string as its sub-value (it is never hidden,
    a model string with a hyphen being non-empty), and the Workspace card
    reads "Isolated" with the workspace string as sub-value unless that
    string is empty. *)
Theorem card_subvalues (st : ViewState) (s : SystemStatus) (d : Dashboard) :
  status st = Some s ->
  render st = inr (DashboardView d) ->
  card_sub (d_modelCard d) = Some (model s) /\
  card_value (d_workspaceCard d) = TextValue "Isolated" /\
  (workspace s <> "" -> card_sub (d_workspaceCard d) = Some (workspace s)) /\
  (workspace s = "" -> card_sub (d_workspaceCard d) = None).
Proof.
  intros H R.
  destruct (render_dashboard_inv st d R) as [[N _] | [s' [H' [Y ->]]]];
    [congruence |].
  assert (s' = s) as -> by congruence.
  cbn [dashboard d_modelCard d_workspaceCard StatCard card_sub card_value
       p_subValue p_value].
  rewrite H. cbn [option_map]. repeat split.
  - pose proof (hasHyphen_nonempty _ Y). destruct (model s); [contradiction | reflexivity].
  - intros N. destruct (workspace s); [contradiction | reflexivity].
  - intros ->. reflexivity.
Qed.

Lemma card_subvalues_witness :
  card_sub (d_modelCard (dashboard seasoned "4")) = Some "gpt-4-turbo".
Proof.
  exact (proj1 (card_subvalues seasoned twoHyphens (dashboard seasoned "4")
                  eq_refl eq_refl)).
Defined.

(** ** The fetch handlers beyond the claims *)

Section HandlerFacts.

Ltac outcomes :=
  repeat match goal with
         | o : FetchOutcome _ |- _ => destruct o as [? | [[|] [? | ? | ]]]
         end.

Lemma error_fetchStatus (st : ViewState) (o : FetchOutcome SystemStatus) :
  error (fetchStatus st o) = statusFailure o.
Proof. outcomes; reflexivity. Qed.

Lemma error_fetchLogs (st : ViewState) (o : FetchOutcome TextBody) :
  error (fetchLogs st o) = error st.
Proof. outcomes; reflexivity. Qed.

Lemma error_fetchService (st : ViewState) (o : FetchOutcome TextBody) :
  error (fetchService st o) = error st.
Proof. outcomes; reflexivity. Qed.

Lemma logs_fetchLogs_ext (st st' : ViewState) (o : FetchOutcome TextBody) :
  logs st = logs st' -> logs (fetchLogs st o) = logs (fetchLogs st' o).
Proof. intros H. outcomes; simpl; auto. Qed.

Lemma service_fetchService_ext (st st' : ViewState) (o : FetchOutcome TextBody) :
  service st = service st' -> service (fetchService st o) = service (fetchService st' o).
Proof. intros H. outcomes; simpl; auto. Qed.

Lemma logs_fetchService (st : ViewState) (o : FetchOutcome TextBody) :
  logs (fetchService st o) = logs st.
Proof. outcomes; reflexivity. Qed.

Lemma service_fetchLogs (st : ViewState) (o : FetchOutcome TextBody) :
  service (fetchLogs st o) = service st.
Proof. outcomes; reflexivity. Qed.

Lemma statusCells_fetchStatus_ext (st st' : ViewState) (o : FetchOutcome SystemStatus) :
  sameStatusCells st st' -> sameStatusCells (fetchStatus st o) (fetchStatus st' o).
Proof. intros [H1 [H2 H3]]. unfold sameStatusCells. outcomes; simpl; auto. Qed.

Lemma statusCells_fetchLogs (st : ViewState) (o : FetchOutcome TextBody) :
  sameStatusCells (fetchLogs st o) st.
Proof. unfold sameStatusCells. outcomes; simpl; auto. Qed.

Lemma statusCells_fetchService (st : ViewState) (o : FetchOutcome TextBody) :
  sameStatusCells (fetchService st o) st.
Proof. unfold sameStatusCells. outcomes; simpl; auto. Qed.

Lemma sameStatusCells_trans (a b c : ViewState) :
  sameStatusCells a b -> sameStatusCells b c -> sameStatusCells a c.
Proof. unfold sameStatusCells. intuition congruence. Qed.

Lemma logs_fold (evs : list Settled) :
  forall st st' : ViewState,
    logs st = logs st' ->
    logs (fold_left step evs st) =
    logs (fold_left step (filter isLogsSettled evs) st').
Proof.
  induction evs as [|ev evs IH]; intros st st' H; [exact H |].
  destruct ev as [o | o | o]; cbn [filter isLogsSettled fold_left step]; apply IH.
  - rewrite (proj1 (fetchStatus_keeps_text st o)). exact H.
  - now apply logs_fetchLogs_ext.
  - rewrite logs_fetchService. exact H.
Qed.

Lemma service_fold (evs : list Settled) :
  forall st st' : ViewState,
    service st = service st' ->
    service (fold_left step evs st) =
    service (fold_left step (filter isServiceSettled evs) st').
Proof.
  induction evs as [|ev evs IH]; intros st st' H; [exact H |].
  destruct ev as [o | o | o]; cbn [filter isServiceSettled fold_left step]; apply IH.
  - rewrite (proj2 (fetchStatus_keeps_text st o)). exact H.
  - rewrite service_fetchLogs. exact H.
  - now apply service_fetchService_ext.
Qed.

Lemma statusCells_fold (evs : list Settled) :
  forall st st' : ViewState,
    sameStatusCells st st' ->
    sameStatusCells (fold_left step evs st)
                    (fold_left step (filter isStatusSettled evs) st').
Proof.
  induction evs as [|ev evs IH]; intros st st' H; [exact H |].
  destruct ev as [o | o | o]; cbn [filter isStatusSettled fold_left step]; apply IH.
  - now apply statusCells_fetchStatus_ext.
  - exact (sameStatusCells_trans _ _ _ (statusCells_fetchLogs st o) H).
  - exact (sameStatusCells_trans _ _ _ (statusCells_fetchService st o) H).
Qed.

Lemma error_fold (evs : list Settled) (st : ViewState) :
  existsb isStatusSettled evs = false ->
  error (fold_left step evs st) = error st.
Proof.
  revert st; induction evs as [|ev evs IH]; intros st; simpl; [reflexivity |].
  destruct ev as [o | o | o]; simpl; [discriminate | |]; intros H; rewrite (IH _ H).
  - apply error_fetchLogs.
  - apply error_fetchService.
Qed.

Lemma status_fetchStatus (st : ViewState) (o : FetchOutcome SystemStatus) :
  status (fetchStatus st o) =
  match o with
  | Resolved {| ok := true; json := Parsed d |} => Some d
  | Resolved {| ok := true; json := ParsedNull |} => None
  | _ => status st
  end.
Proof. outcomes; reflexivity. Qed.

Lemma status_fold_received (evs : list Settled) :
  forall st : ViewState,
    existsb isStatusNull evs = false ->
    (status (fold_left step evs st) = None <->
     status st = None /\ existsb isStatusReceived evs = false).
Proof.
  induction evs as [|ev evs IH]; intros st N; simpl.
  - tauto.
  - simpl in N. apply orb_false_iff in N as [N1 N2].
    rewrite (IH _ N2). destruct ev as [o | o | o]; simpl.
    + rewrite status_fetchStatus.
      outcomes; simpl in *; intuition (discriminate || congruence).
    + rewrite status_fetchLogs. tauto.
    + rewrite status_fetchService. tauto.
Qed.

End HandlerFacts.

(** X8: fetches of different resources commute: whatever their outcomes,
    the view state after a status, a logs and a service fetch have settled
    is the same for all six orders in which they can settle. *)
Theorem handlers_commute
        (st : ViewState) (a : FetchOutcome SystemStatus)
        (b c : FetchOutcome TextBody) :
  fetchLogs (fetchStatus st a) b = fetchStatus (fetchLogs st b) a /\
  fetchService (fetchStatus st a) c = fetchStatus (fetchService st c) a /\
  fetchService (fetchLogs st b) c = fetchLogs (fetchService st c) b /\
  forall evs : list Settled,
    In evs [ [StatusSettled a; LogsSettled b; ServiceSettled c];
             [StatusSettled a; ServiceSettled c; LogsSettled b];
             [LogsSettled b; StatusSettled a; ServiceSettled c];
             [LogsSettled b; ServiceSettled c; StatusSettled a];
             [ServiceSettled c; StatusSettled a; LogsSettled b];
             [ServiceSettled c; LogsSettled b; StatusSettled a] ] ->
    fold_left step evs st =
    fetchService (fetchLogs (fetchStatus st a) b) c.
Proof.
  assert (forall st', fetchLogs (fetchStatus st' a) b =
                      fetchStatus (fetchLogs st' b) a) as E1
      by (intros st'; destruct a as [? | [[|] [? | ? | ]]], b as [? | [? [? | ? | ]]];
          reflexivity).
  assert (forall st', fetchService (fetchStatus st' a) c =
                      fetchStatus (fetchService st' c) a) as E2
      by (intros st'; destruct a as [? | [[|] [? | ? | ]]], c as [? | [? [? | ? | ]]];
          reflexivity).
  assert (forall st', fetchService (fetchLogs st' b) c =
                      fetchLogs (fetchService st' c) b) as E3
      by (intros st'; destruct b as [? | [? [? | ? | ]]], c as [? | [? [? | ? | ]]];
          reflexivity).
  split; [apply E1 |]. split; [apply E2 |]. split; [apply E3 |].
  intros evs H. simpl in H.
  destruct H as [<- | [<- | [<- | [<- | [<- | [<- | []]]]]]]; cbn [fold_left step].
  - reflexivity.
  - now rewrite <- E3.
  - now rewrite <- E1.
  - now rewrite <- E2, <- E1.
  - now rewrite <- E2, <- E3.
  - now rewrite <- E1, <- E2, <- E3.
Qed.

(** X9: for one resource the response that settles last decides.  A status
    response with [ok] whose body parses, to a payload or to [null], gives
    the same view state whatever status outcome settled just before it, and
    so does a logs or service response whose body parses to a value other
    than [null]; settling the same outcome twice is the same as settling it
    once. *)
Theorem latest_response_wins (st : ViewState) :
  (forall (o : FetchOutcome SystemStatus) (d : SystemStatus),
      fetchStatus (fetchStatus st o) (Resolved (mkResponse true (Parsed d))) =
      fetchStatus st (Resolved (mkResponse true (Parsed d)))) /\
  (forall (o : FetchOutcome TextBody) (httpOk : bool) (body : TextBody),
      fetchLogs (fetchLogs st o) (Resolved (mkResponse httpOk (Parsed body))) =
      fetchLogs st (Resolved (mkResponse httpOk (Parsed body))) /\
      fetchService (fetchService st o) (Resolved (mkResponse httpOk (Parsed body))) =
      fetchService st (Resolved (mkResponse httpOk (Parsed body)))) /\
  (forall o : FetchOutcome SystemStatus,
      fetchStatus (fetchStatus st o) o = fetchStatus st o) /\
  (forall o : FetchOutcome TextBody,
      fetchLogs (fetchLogs st o) o = fetchLogs st o /\
      fetchService (fetchService st o) o = fetchService st o) /\
  (forall o : FetchOutcome SystemStatus,
      fetchStatus (fetchStatus st o) (Resolved (mkResponse true ParsedNull)) =
      fetchStatus st (Resolved (mkResponse true ParsedNull))).
Proof.
  split; [intros [? | [[|] [? | ? | ]]] d; reflexivity |].
  split; [intros [? | [? [? | ? | ]]] httpOk body; split; reflexivity |].
  split; [intros [? | [[|] [? | ? | ]]]; reflexivity |].
  split; [intros [? | [? [? | ? | ]]]; split; reflexivity |].
  intros [? | [[|] [? | ? | ]]]; reflexivity.
Qed.

(** X10: over any run the three resources do not interfere: the logs text
    is what the logs fetches alone would have left, the service text what the
    service fetches alone would have left, and status, error and loading
    what the status fetches alone would have left. *)
Theorem cells_independent (evs : list Settled) :
  logs (run evs) = logs (run (filter isLogsSettled evs)) /\
  service (run evs) = service (run (filter isServiceSettled evs)) /\
  status (run evs) = status (run (filter isStatusSettled evs)) /\
  error (run evs) = error (run (filter isStatusSettled evs)) /\
  loading (run evs) = loading (run (filter isStatusSettled evs)).
Proof.
  unfold run.
  split; [now apply logs_fold |]. split; [now apply service_fold |].
  apply (statusCells_fold evs initialState initialState). repeat split.
Qed.

(** X11: the error cell reflects the status fetch that settled last and
    nothing else: it holds that fetch's failure message, or nothing if that
    fetch succeeded, whatever happened before it and whatever logs and
    service fetches settled after it; before any status fetch has settled it
    holds nothing. *)
Theorem error_reflects_latest_status (rest : list Settled) :
  existsb isStatusSettled rest = false ->
  error (run rest) = None /\
  forall (evs : list Settled) (o : FetchOutcome SystemStatus),
    error (run (evs ++ StatusSettled o :: rest)) = statusFailure o /\
    loading (run (evs ++ StatusSettled o :: rest)) = false.
Proof.
  intros H. split; [unfold run; now rewrite error_fold |].
  intros evs o. unfold run. rewrite fold_left_app. cbn [fold_left step].
  split.
  - rewrite (error_fold rest _ H). apply error_fetchStatus.
  - rewrite loading_fold, loading_fetchStatus. reflexivity.
Qed.

Lemma error_reflects_latest_status_witness :
  error (run [StatusSettled (Rejected "Failed to fetch");
              StatusSettled (Resolved (mkResponse true (Parsed twoHyphens)));
              LogsSettled serverErrorBody]) = None.
Proof.
  exact (proj1 (proj2 (error_reflects_latest_status [LogsSettled serverErrorBody] eq_refl)
                  [StatusSettled (Rejected "Failed to fetch")]
                  (Resolved (mkResponse true (Parsed twoHyphens))))).
Defined.

(** X12: the status cell is emptied only by a response with [ok] whose
    body parses to [null]: from a state that holds a status, a status fetch
    leaves the cell empty exactly at that outcome, so no failure clears it;
    logs and service fetches never touch it; over a run without such a
    response the cell is empty exactly when no status payload was received;
    and such a response always empties it. *)
Theorem status_cleared_only_by_null :
  (forall (st : ViewState) (o : FetchOutcome SystemStatus),
      status st <> None ->
      (status (fetchStatus st o) = None <->
       o = Resolved (mkResponse true ParsedNull))) /\
  (forall (st : ViewState) (o : FetchOutcome TextBody),
      status (fetchLogs st o) = status st /\
      status (fetchService st o) = status st) /\
  (forall evs : list Settled,
      existsb isStatusNull evs = false ->
      (status (run evs) = None <-> existsb isStatusReceived evs = false)) /\
  (forall evs : list Settled,
      status (run (evs ++ [StatusSettled (Resolved (mkResponse true ParsedNull))])) =
      None).
Proof.
  split; [| split; [| split]].
  - intros st o N. rewrite status_fetchStatus.
    destruct o as [? | [[|] [? | ? | ]]]; simpl;
      split; intros E; try contradiction; try discriminate; reflexivity.
  - intros st o. split; [apply status_fetchLogs | apply status_fetchService].
  - intros evs N. unfold run. rewrite (status_fold_received evs _ N). simpl. tauto.
  - intros evs. unfold run. rewrite fold_left_app. reflexivity.
Qed.

Lemma status_cleared_only_by_null_witness :
  status (run [StatusSettled (Resolved (mkResponse true (Parsed twoHyphens)));
               StatusSettled (Rejected "Failed to fetch");
               LogsSettled serverErrorBody]) <> None.
Proof.
  intros E.
  apply (proj1 (proj2 (proj2 status_cleared_only_by_null))
           [StatusSettled (Resolved (mkResponse true (Parsed twoHyphens)));
            StatusSettled (Rejected "Failed to fetch");
            LogsSettled serverErrorBody] eq_refl) in E.
  discriminate E.
Defined.

(** ** The poller beyond the claims *)

Section ScheduleFacts.
Variable hostname : string.
Local Open Scope Z_scope.

Lemma runTimers_rounds (fuel : nat) (target : Z) :
  forall p : Poller,
    exists ts : list Z,
      issued (runTimers hostname fuel target p) =
        (issued p ++ flat_map (roundRequests hostname) ts)%list /\
      Forall (fun t => t <= target) ts /\
      (interval p = None -> ts = []) /\
      now (runTimers hostname fuel target p) = now p.
Proof.
  assert (forall q : Poller,
             issued q = (issued q ++ flat_map (roundRequests hostname) [])%list /\
             Forall (fun t => t <= target) [] /\
             (interval q = None -> @nil Z = []) /\ now q = now q) as Stay.
  { intros q. cbn [flat_map]. rewrite app_nil_r.
    split; [reflexivity |]. split; [constructor |]. split; reflexivity. }
  induction fuel as [|fuel IH]; intros p.
  - exists []. apply Stay.
  - cbn [runTimers]. destruct (interval p) as [due|] eqn:Hi.
    + destruct (Z.leb_spec due target) as [Hle|Hgt].
      * destruct (IH (tick hostname due p)) as [ts [I [F [_ N]]]].
        exists (due :: ts). rewrite I, issued_tick. cbn [flat_map].
        rewrite <- app_assoc.
        split; [reflexivity |]. split; [constructor; assumption |].
        split; [discriminate |]. rewrite N. reflexivity.
      * exists []. destruct (Stay p) as [S1 [S2 [_ S4]]].
        split; [exact S1 |]. split; [exact S2 |]. split; [reflexivity | exact S4].
    + exists []. destruct (Stay p) as [S1 [S2 [_ S4]]].
      split; [exact S1 |]. split; [exact S2 |]. split; [reflexivity | exact S4].
Qed.

Lemma dueTicks_next (due target : Z) :
  target < due + period * Z.of_nat (dueTicks due target) /\
  (due <= target + period ->
   due + period * Z.of_nat (dueTicks due target) <= target + period).
Proof.
  unfold dueTicks, period. destruct (Z.leb_spec due target) as [Hle|Hgt].
  - rewrite Nat2Z.inj_succ, Z2Nat.id by (apply Z.div_pos; lia).
    pose proof (Z.div_mod (target - due) 5000 ltac:(lia)) as E.
    pose proof (Z.mod_pos_bound (target - due) 5000 ltac:(lia)) as B.
    lia.
  - change (Z.of_nat 0) with 0. lia.
Qed.

Lemma dueTicks_split (due t1 t2 : Z) :
  t1 <= t2 ->
  dueTicks due t2 =
  (dueTicks due t1 + dueTicks (due + period * Z.of_nat (dueTicks due t1)) t2)%nat.
Proof.
  intros H. unfold dueTicks at 2 4. unfold period.
  destruct (Z.leb_spec due t1) as [Hle|Hgt].
  - rewrite Nat2Z.inj_succ, Z2Nat.id by (apply Z.div_pos; lia).
    pose proof (Z.div_mod (t1 - due) 5000 ltac:(lia)) as E1.
    pose proof (Z.mod_pos_bound (t1 - due) 5000 ltac:(lia)) as B1.
    set (q1 := (t1 - due) / 5000) in *.
    assert (0 <= q1) by (apply Z.div_pos; lia).
    unfold dueTicks, period.
    destruct (Z.leb_spec due t2) as [_|]; [| lia].
    destruct (Z.leb_spec (due + 5000 * Z.succ q1) t2) as [Hle2|Hgt2].
    + replace (t2 - due) with ((t2 - (due + 5000 * Z.succ q1)) + Z.succ q1 * 5000)
        by lia.
      rewrite Z.div_add by lia.
      rewrite Z2Nat.inj_add by (try apply Z.div_pos; lia).
      rewrite Z2Nat.inj_succ by lia. lia.
    + assert ((t2 - due) / 5000 = q1) as ->
          by (symmetry; apply (Z.div_unique _ _ _ (t2 - due - 5000 * q1)); lia).
      lia.
  - change (Z.of_nat 0) with 0. rewrite Z.mul_0_r, Z.add_0_r. reflexivity.
Qed.

Lemma timesFrom_app (t : Z) (n m : nat) :
  timesFrom t (n + m) =
  (timesFrom t n ++ timesFrom (t + period * Z.of_nat n) m)%list.
Proof.
  revert t; induction n as [|n IH]; intros t.
  - cbn [Nat.add timesFrom app]. change (Z.of_nat 0) with 0.
    now rewrite Z.mul_0_r, Z.add_0_r.
  - cbn [Nat.add timesFrom app]. rewrite IH. do 3 f_equal.
    rewrite Nat2Z.inj_succ. unfold period. lia.
Qed.

(** Letting time pass on a poller whose timer is armed for later, in full. *)
Lemma advance_armed (ms : Z) (p : Poller) (due : Z) :
  interval p = Some due -> now p < due -> 0 <= ms ->
  advance hostname ms p =
  {| now := now p + ms;
     interval := Some (due + period * Z.of_nat (dueTicks due (now p + ms)));
     issued := (issued p ++ flat_map (roundRequests hostname)
                              (timesFrom due (dueTicks due (now p + ms))))%list |}.
Proof.
  intros Hi Hd Hms. unfold advance.
  destruct (runTimers_armed hostname (Z.to_nat ms) (now p + ms) p due Hi
              (dueTicks_fuel _ _ _ Hd Hms)) as [I1 I2].
  cbv zeta. rewrite I1, I2. reflexivity.
Qed.

Lemma advance_cleared (ms : Z) (p : Poller) :
  interval p = None ->
  advance hostname ms p =
  {| now := now p + ms; interval := None; issued := issued p |}.
Proof.
  intros Hi. unfold advance. cbv zeta.
  rewrite runTimers_cleared by exact Hi. now rewrite Hi.
Qed.

End ScheduleFacts.

(** X14: whatever the state of the poller, letting time pass only appends
    whole rounds to the requests issued so far: each round asks for status,
    logs and service in that order at the resolved base URL, no round is
    dated after the new clock time, and without an armed timer nothing is
    issued. *)
Theorem advance_appends_rounds (hostname : string) (p : Poller) (ms : Z) :
  exists ts : list Z,
    issued (advance hostname ms p) =
      issued p ++ flat_map (roundRequests hostname) ts /\
    Forall (fun t => (t <= now p + ms)%Z) ts /\
    (interval p = None -> ts = []) /\
    (forall t : Z,
        roundRequests hostname t =
        [ mkRequest t StatusEndpoint (getApiBase hostname ++ "/admin/status")%string;
          mkRequest t LogsEndpoint (getApiBase hostname ++ "/admin/logs")%string;
          mkRequest t ServiceEndpoint (getApiBase hostname ++ "/admin/service")%string ]).
Proof.
  destruct (runTimers_rounds hostname (Z.to_nat ms) (now p + ms)%Z p)
    as [ts [I [F [N _]]]].
  exists ts. split; [exact I |]. split; [exact F |]. split; [exact N |].
  reflexivity.
Qed.

(** X15: a timer that is due later than now and at most one period ahead
    stays so when time passes: after any wait the next round is due strictly
    after the clock and at most 5000 ms ahead, a whole number of periods
    after the earlier due time.  The mount arms the timer exactly one period
    ahead. *)
Theorem next_round_within_period
        (hostname : string) (p : Poller) (due ms : Z) :
  interval p = Some due ->
  (now p < due <= now p + period)%Z ->
  (0 <= ms)%Z ->
  exists due' : Z,
    interval (advance hostname ms p) = Some due' /\
    (now (advance hostname ms p) < due' <= now (advance hostname ms p) + period)%Z /\
    ((due' - due) mod period = 0)%Z /\
    interval (mount hostname p) = Some (now p + period)%Z.
Proof.
  intros Hi [Hd1 Hd2] Hms.
  rewrite (advance_armed hostname ms p due Hi Hd1 Hms). cbn [interval now].
  eexists. split; [reflexivity |].
  destruct (dueTicks_next due (now p + ms)) as [A B].
  split; [split; [exact A | apply B; lia] |].
  split; [| reflexivity].
  replace (due + period * Z.of_nat (dueTicks due (now p + ms)) - due)%Z
    with (Z.of_nat (dueTicks due (now p + ms)) * period)%Z by lia.
  apply Z.mod_mul. discriminate.
Qed.

Lemma next_round_within_period_witness :
  exists due' : Z,
    interval (advance "admin.weaver.onl" 7500 (mount "admin.weaver.onl" idle)) =
      Some due' /\
    (7500 < due' <= 12500)%Z.
Proof.
  destruct (next_round_within_period "admin.weaver.onl"
              (mount "admin.weaver.onl" idle) 5000 7500 eq_refl
              ltac:(unfold period; simpl; lia) ltac:(lia))
    as [due' [I [B _]]].
  exists due'. split; [exact I | exact B].
Defined.

(** X16: the schedule does not depend on how the passage of time is cut up:
    for a poller whose timer, if armed, is due later than now, waiting [a]
    and then [b] milliseconds issues the same requests and leaves the same
    state as waiting [a + b] milliseconds at once. *)
Theorem advance_additive (hostname : string) (p : Poller) (a b : Z) :
  timerAhead p ->
  (0 <= a)%Z -> (0 <= b)%Z ->
  advance hostname b (advance hostname a p) = advance hostname (a + b) p.
Proof.
  unfold timerAhead. intros T Ha Hb.
  destruct (interval p) as [due|] eqn:Hi.
  - rewrite (advance_armed hostname a p due Hi T Ha).
    rewrite (advance_armed hostname (a + b) p due Hi T) by lia.
    destruct (dueTicks_next due (now p + a)) as [A _].
    rewrite (advance_armed hostname b
               {| now := _; interval := Some _; issued := _ |} _ eq_refl A Hb).
    cbn [now issued]. rewrite Z.add_assoc.
    rewrite (dueTicks_split due (now p + a) (now p + a + b)) by lia.
    rewrite timesFrom_app, flat_map_app, <- app_assoc, Nat2Z.inj_add.
    f_equal. f_equal. unfold period. lia.
  - rewrite (advance_cleared hostname a p Hi).
    rewrite (advance_cleared hostname (a + b) p Hi).
    rewrite (advance_cleared hostname b
               {| now := _; interval := None; issued := _ |} eq_refl).
    cbn [now issued].
    now rewrite Z.add_assoc.
Qed.

Lemma advance_additive_witness :
  advance "admin.weaver.onl" 4000
    (advance "admin.weaver.onl" 3500 (mount "admin.weaver.onl" idle)) =
  advance "admin.weaver.onl" 7500 (mount "admin.weaver.onl" idle).
Proof.
  exact (advance_additive "admin.weaver.onl" (mount "admin.weaver.onl" idle)
           3500 4000 eq_refl ltac:(lia) ltac:(lia)).
Defined.

(** X17: no failure leaves a fetch handler: whatever the outcome of the
    fetch and whatever the view state, each of the three handlers completes
    normally, the exception raised on the way having been caught inside. *)
Theorem handlers_never_throw (st : ViewState) :
  (forall o : FetchOutcome SystemStatus, fst (fetchStatusM o st) = inr tt) /\
  (forall o : FetchOutcome TextBody,
      fst (fetchLogsM o st) = inr tt /\ fst (fetchServiceM o st) = inr tt).
Proof.
  split.
  - intros [? | [[|] [? | ? | ]]]; reflexivity.
  - intros [? | [? [? | ? | ]]]; split; reflexivity.
Qed.
